(** * common-api-hooks: target-directory resolution and hook stamping

    The repository ships three entry points that all do the same job: find a
    conventional source folder below a starting directory and write a fixed
    table of React hook templates into [<target>/hooks].

    - the editor extension ([createHooksFolder] with the nested
      [findHooksDirectory] closure),
    - the first command-line tool (recursive [findTargetDirectory]),
    - the newest command-line tool (shallow [findTargetDirectory]).

    The development embeds the Node [fs] calls the code uses over a directory
    tree, runs the three entry points in a small monad that threads the tree,
    records every call and console message, and can complete normally, by a
    thrown exception or by [process.exit].

    Scope of the model: a tree of regular files and directories, each
    directory listing its entries in enumeration order; every directory can
    be listed and traversed, and there are no symbolic links.  The errors
    that remain are those of the tree itself: a missing path, a file where a
    directory is needed, a directory where a file is to be written. *)

From Stdlib Require Import List String Bool Arith Lia ZArith QArith Lqa.
Import ListNotations.
Close Scope Q_scope.
Set Warnings "-register-all".
Local Open Scope string_scope.
Local Open Scope list_scope.

(** ** Paths *)

(** An absolute path is the list of its components below the filesystem root.
    [path.join(dir, name)] is only ever applied to a single component that is
    neither empty, [.], [..] nor contains a separator (a name returned by
    [readdirSync], or one of the literals [src], [app], [hooks],
    [<hookName>.ts]), so it appends that component. *)
Definition path := list string.

Definition join (dir : path) (name : string) : path := dir ++ [name].

(** The last component of a path (empty for the root). *)
Definition basename (p : path) : string := last p "".

(** Rendering of a path inside a message. *)
Definition fsPath (p : path) : string := "/" ++ String.concat "/" p.

(** ** Directory trees *)

Inductive node : Type :=
| File (data : string)
| Dir (entries : list (string * node)).

(** Entries are kept in enumeration order; the first entry carrying a name is
    the one the name resolves to. *)
Fixpoint entry (name : string) (es : list (string * node)) : option node :=
  match es with
  | [] => None
  | (n, c) :: es' => if String.eqb name n then Some c else entry name es'
  end.

(** Replace the child the name resolves to. *)
Fixpoint replace (name : string) (c' : node) (es : list (string * node))
  : list (string * node) :=
  match es with
  | [] => []
  | (n, c) :: es' =>
      if String.eqb name n then (n, c') :: es' else (n, c) :: replace name c' es'
  end.

Inductive errno : Type := ENOENT | ENOTDIR | EISDIR | EEXIST.

(** Path resolution, with the error code Node reports when it fails. *)
Fixpoint resolve (n : node) (p : path) : errno + node :=
  match p with
  | [] => inr n
  | c :: p' =>
      match n with
      | File _ => inl ENOTDIR
      | Dir es =>
          match entry c es with
          | Some ch => resolve ch p'
          | None => inl ENOENT
          end
      end
  end.

(** What a path names: nothing, a file with its bytes, or a directory. *)
Inductive kind : Type := KFile (data : string) | KDir.

Definition kind_of (n : node) : kind :=
  match n with File d => KFile d | Dir _ => KDir end.

Definition obs (fs : node) (p : path) : option kind :=
  match resolve fs p with inr n => Some (kind_of n) | inl _ => None end.

Definition is_dir (fs : node) (p : path) : bool :=
  match resolve fs p with inr (Dir _) => true | _ => false end.

(** A chain of fresh empty directories, one per component. *)
Fixpoint fresh_dirs (p : path) : node :=
  match p with
  | [] => Dir []
  | c :: p' => Dir [(c, fresh_dirs p')]
  end.

(** [mkdir] with [recursive: true]: existing directories are kept, missing
    segments are created, a file on the way is an error. *)
Fixpoint mkdirp (n : node) (p : path) : errno + node :=
  match p with
  | [] => match n with Dir _ => inr n | File _ => inl EEXIST end
  | c :: p' =>
      match n with
      | File _ => inl ENOTDIR
      | Dir es =>
          match entry c es with
          | Some ch =>
              match mkdirp ch p' with
              | inr ch' => inr (Dir (replace c ch' es))
              | inl e => inl e
              end
          | None => inr (Dir (es ++ [(c, fresh_dirs p')]))
          end
      end
  end.

(** [writeFile]: the parent must be an existing directory and the path must
    not name a directory; an existing file is replaced in place, a new one is
    added to its parent. *)
Fixpoint write (n : node) (p : path) (data : string) : errno + node :=
  match p with
  | [] => match n with File _ => inr (File data) | Dir _ => inl EISDIR end
  | c :: p' =>
      match n with
      | File _ => inl ENOTDIR
      | Dir es =>
          match entry c es with
          | Some ch =>
              match write ch p' data with
              | inr ch' => inr (Dir (replace c ch' es))
              | inl e => inl e
              end
          | None =>
              match p' with
              | [] => inr (Dir (es ++ [(c, File data)]))
              | _ :: _ => inl ENOENT
              end
          end
      end
  end.

(** Height of a tree: a bound on the length of every path that resolves. *)
Fixpoint height (n : node) : nat :=
  match n with
  | File _ => 0
  | Dir es =>
      S ((fix hs (l : list (string * node)) : nat :=
            match l with
            | [] => 0
            | (_, c) :: l' => Nat.max (height c) (hs l')
            end) es)
  end.

Definition heights (l : list (string * node)) : nat :=
  (fix hs (l : list (string * node)) : nat :=
     match l with
     | [] => 0
     | (_, c) :: l' => Nat.max (height c) (hs l')
     end) l.

(** No directory lists the same name twice. *)
Fixpoint nodupb (l : list string) : bool :=
  match l with
  | [] => true
  | x :: l' => negb (existsb (String.eqb x) l') && nodupb l'
  end.

Fixpoint well_formed (n : node) : bool :=
  match n with
  | File _ => true
  | Dir es =>
      nodupb (map fst es)
      && (fix all (l : list (string * node)) : bool :=
            match l with
            | [] => true
            | (_, c) :: l' => well_formed c && all l'
            end) es
  end.

Definition well_formed_entries (l : list (string * node)) : bool :=
  (fix all (l : list (string * node)) : bool :=
     match l with
     | [] => true
     | (_, c) :: l' => well_formed c && all l'
     end) l.

(** ** Effects *)

Inductive exn : Type :=
| IOError (code : errno) (syscall : string) (p : path)
| TypeError (msg : string).

Inductive event : Type :=
| EvExists (p : path)
| EvStat (p : path)
| EvReaddir (p : path)
| EvMkdir (p : path)
| EvWriteFile (p : path) (data : string)
| EvConsoleError (msg : string)
| EvConsoleLog (msg : string)
| EvShowErrorMessage (msg : string)
| EvShowInformationMessage (msg : string).

(** How a computation ends. [OutOfFuel] belongs to the bounded recursion of
    the model only. *)
Inductive completion (A : Type) : Type :=
| Normal (a : A)
| Throw (e : exn)
| Exit (code : Z)
| OutOfFuel.

Arguments Normal {A} a.
Arguments Throw {A} e.
Arguments Exit {A} code.
Arguments OutOfFuel {A}.

(** A computation takes the tree and gives its completion, the tree it
    leaves and the events it emitted, oldest first. *)
Definition M (A : Type) : Type := node -> completion A * node * list event.

Definition ret {A} (a : A) : M A := fun fs => (Normal a, fs, []).

Definition bind {A B} (m : M A) (k : A -> M B) : M B :=
  fun fs =>
    match m fs with
    | (Normal a, fs', t) =>
        match k a fs' with
        | (c, fs'', t') => (c, fs'', t ++ t')
        end
    | (Throw e, fs', t) => (Throw e, fs', t)
    | (Exit code, fs', t) => (Exit code, fs', t)
    | (OutOfFuel, fs', t) => (OutOfFuel, fs', t)
    end.

Notation "x <- m ;; k" := (bind m (fun x => k))
  (at level 61, m at next level, right associativity).
Notation "m ;; k" := (bind m (fun _ => k))
  (at level 61, right associativity).

Definition throw {A} (e : exn) : M A := fun fs => (Throw e, fs, []).
Definition emit (e : event) : M unit := fun fs => (Normal tt, fs, [e]).
Definition out_of_fuel {A} : M A := fun fs => (OutOfFuel, fs, []).

(** *** The [fs] module *)

Record Stats : Type := { isDirectory : bool }.

Definition stats_of (n : node) : Stats :=
  {| isDirectory := match n with Dir _ => true | File _ => false end |}.

Definition existsSync (p : path) : M bool :=
  fun fs =>
    (Normal (match resolve fs p with inr _ => true | inl _ => false end),
     fs, [EvExists p]).

Definition statSync (p : path) : M Stats :=
  fun fs =>
    match resolve fs p with
    | inr n => (Normal (stats_of n), fs, [EvStat p])
    | inl code => (Throw (IOError code "stat" p), fs, [EvStat p])
    end.

Definition readdirSync (p : path) : M (list string) :=
  fun fs =>
    match resolve fs p with
    | inr (Dir es) => (Normal (map fst es), fs, [EvReaddir p])
    | inr (File _) => (Throw (IOError ENOTDIR "scandir" p), fs, [EvReaddir p])
    | inl code => (Throw (IOError code "scandir" p), fs, [EvReaddir p])
    end.

(** [fs.mkdirSync(p, { recursive: true })] *)
Definition mkdirSync (p : path) : M unit :=
  fun fs =>
    match mkdirp fs p with
    | inr fs' => (Normal tt, fs', [EvMkdir p])
    | inl code => (Throw (IOError code "mkdir" p), fs, [EvMkdir p])
    end.

Definition writeFileSync (p : path) (data : string) : M unit :=
  fun fs =>
    match write fs p data with
    | inr fs' => (Normal tt, fs', [EvWriteFile p data])
    | inl code => (Throw (IOError code "open" p), fs, [EvWriteFile p data])
    end.

(** *** Console, process and editor window *)

Definition console_error (msg : string) : M unit := emit (EvConsoleError msg).
Definition console_log (msg : string) : M unit := emit (EvConsoleLog msg).
Definition process_exit {A} (code : Z) : M A := fun fs => (Exit code, fs, []).
Definition showErrorMessage (msg : string) : M unit :=
  emit (EvShowErrorMessage msg).
Definition showInformationMessage (msg : string) : M unit :=
  emit (EvShowInformationMessage msg).

(** ** The hook table *)

(** [Object.entries(hooks)]: the own properties of the literal, in
    insertion order, as (name, template text) pairs.  Property names of an
    object literal are pairwise distinct.  The entry points below take the
    table as an argument: the code never looks inside a template text, and
    the three literals differ only in their texts and in their number of
    entries. *)
Definition table := list (string * string).

Definition hookFile (hookName : string) : string := hookName ++ ".ts".

(** The property names of the two literals.  The extension and the first
    command-line tool carry the first four, the newest tool all seven. *)
Definition hookNames4 : list string :=
  ["useDebounce"; "useThrottle"; "useFetch"; "useLocalStorage"].

Definition hookNames7 : list string :=
  hookNames4 ++ ["useApi"; "usePagination"; "useInfiniteScroll"].

(** A table over given names; the template text of each hook is a parameter. *)
Definition hooksOver (names : list string) (template : string -> string)
  : table :=
  map (fun name => (name, template name)) names.

(** ** Writing the templates *)

(** [Object.entries(hooks).forEach(([hookName, hookContent]) => ...)] *)
Fixpoint forEachHook (hooksPath : path) (hooks : table) : M unit :=
  match hooks with
  | [] => ret tt
  | (hookName, hookContent) :: rest =>
      writeFileSync (join hooksPath (hookFile hookName)) hookContent ;;
      forEachHook hooksPath rest
  end.

(** The block every entry point runs once a target is known: compute
    [<target>/hooks], create it when it does not exist, write every hook.
    It gives back [hooksPath] for the final message. *)
Definition stampHooks (targetPath : path) (hooks : table) : M path :=
  let hooksPath := join targetPath "hooks" in
  e <- existsSync hooksPath ;;
  (if negb e then mkdirSync hooksPath else ret tt) ;;
  forEachHook hooksPath hooks ;;
  ret hooksPath.

(** ** Policy A: the recursive search *)

Definition is_marker (name : string) : bool :=
  String.eqb name "src" || String.eqb name "app".

Module PolicyA.

(** The [for (const entry of entries)] loop; [self] is the recursive call.
    A result is a joined path, hence never the empty string, so the
    truthiness test [if (result)] is the test for non-null. *)
Fixpoint loop (self : path -> M (option path)) (dir : path)
    (entries : list string) : M (option path) :=
  match entries with
  | [] => ret None
  | entry :: rest =>
      let entryPath := join dir entry in
      stats <- statSync entryPath ;;
      if isDirectory stats then
        if is_marker entry then ret (Some entryPath)
        else
          result <- self entryPath ;;
          match result with
          | Some r => ret (Some r)
          | None => loop self dir rest
          end
      else loop self dir rest
  end.

(** The recursion on directories, bounded by [fuel] nested calls. *)
Fixpoint findTargetDirectory_fuel (fuel : nat) (dir : path)
  : M (option path) :=
  match fuel with
  | O => out_of_fuel
  | S fuel' =>
      entries <- readdirSync dir ;;
      loop (findTargetDirectory_fuel fuel') dir entries
  end.

(** The entry points call the search without a bound.  No path that resolves
    is longer than the tree is high, so the bound used here is never reached. *)
Definition findTargetDirectory (dir : path) : M (option path) :=
  fun fs => findTargetDirectory_fuel (S (height fs)) dir fs.

End PolicyA.

(** ** The editor extension *)

Module Extension.

(** The closure inside [createHooksFolder]; same body as the first
    command-line tool's [findTargetDirectory]. *)
Definition findHooksDirectory : path -> M (option path) :=
  PolicyA.findTargetDirectory.

(** [workspaceFolders] is [vscode.workspace.workspaceFolders]: [None] for
    [undefined], otherwise the [fsPath] of each folder.  Reading [.uri] of
    the element at index 0 of an empty array is a [TypeError]. The function
    is [async]: [Throw] is the rejection of the promise it returns. *)
Definition createHooksFolder (hooks : table)
    (workspaceFolders : option (list path)) : M unit :=
  match workspaceFolders with
  | None => showErrorMessage "No workspace is open."
  | Some folders =>
      match folders with
      | [] => throw (TypeError "Cannot read properties of undefined")
      | workspacePath :: _ =>
          targetPath <- findHooksDirectory workspacePath ;;
          match targetPath with
          | None =>
              showErrorMessage "No src or app folder found in the workspace."
          | Some targetPath =>
              stampHooks targetPath hooks ;;
              showInformationMessage "Hooks folder created."
          end
      end
  end.

End Extension.

(** ** The first command-line tool *)

Module CliV1.

Definition findTargetDirectory : path -> M (option path) :=
  PolicyA.findTargetDirectory.

(** [cwd] is [process.cwd()]. *)
Definition createHooksFolder (hooks : table) (cwd : path) : M unit :=
  let currentDir := cwd in
  targetPath <- findTargetDirectory currentDir ;;
  match targetPath with
  | None =>
      console_error
        "No src or app folder found in the current directory or its subdirectories." ;;
      process_exit 1
  | Some targetPath =>
      hooksPath <- stampHooks targetPath hooks ;;
      console_log ("Hooks folder created successfully in " ++ fsPath hooksPath)
  end.

End CliV1.

(** ** The newest command-line tool (Policy B) *)

Module CliV2.

(** [fs.existsSync(p) && fs.statSync(p).isDirectory()] *)
Definition existsAndIsDirectory (p : path) : M bool :=
  e <- existsSync p ;;
  if e then
    stats <- statSync p ;;
    ret (isDirectory stats)
  else ret false.

Definition findTargetDirectory (dir : path) : M (option path) :=
  let srcPath := join dir "src" in
  b <- existsAndIsDirectory srcPath ;;
  if b then
    let srcAppPath := join srcPath "app" in
    b' <- existsAndIsDirectory srcAppPath ;;
    if b' then ret (Some srcAppPath) else ret (Some srcPath)
  else
    let appPath := join dir "app" in
    b'' <- existsAndIsDirectory appPath ;;
    if b'' then ret (Some appPath) else ret None.

Definition createHooksFolder (hooks : table) (cwd : path) : M unit :=
  let currentDir := cwd in
  targetPath <- findTargetDirectory currentDir ;;
  match targetPath with
  | None =>
      console_error
        "No src, src/app, or app folder found in the current directory." ;;
      process_exit 1
  | Some targetPath =>
      hooksPath <- stampHooks targetPath hooks ;;
      console_log ("Hooks folder created successfully in " ++ fsPath hooksPath)
  end.

End CliV2.

(** ** Vocabulary of the specification *)

(** Pre-order listing of the directories strictly below [dir]: each
    directory entry, in enumeration order, followed by the listing of its own
    subtree, before its remaining siblings. *)
Fixpoint preorder (dir : path) (n : node) : list path :=
  match n with
  | File _ => []
  | Dir es =>
      (fix go (l : list (string * node)) : list path :=
         match l with
         | [] => []
         | (name, c) :: l' =>
             match c with
             | Dir _ => join dir name :: preorder (join dir name) c
             | File _ => []
             end ++ go l'
         end) es
  end.

Definition preorder_entries (dir : path) (l : list (string * node))
  : list path :=
  (fix go (l : list (string * node)) : list path :=
     match l with
     | [] => []
     | (name, c) :: l' =>
         match c with
         | Dir _ => join dir name :: preorder (join dir name) c
         | File _ => []
         end ++ go l'
     end) l.

(** A path whose last component is exactly [src] or [app]. *)
Definition is_marker_path (p : path) : bool := is_marker (basename p).

(** The specification of Policy A: first marker in pre-order. *)
Definition firstMarker (dir : path) (n : node) : option path :=
  find is_marker_path (preorder dir n).

(** All folders named [src] or [app] below [dir], at any depth. *)
Definition markerDirs (dir : path) (n : node) : list path :=
  filter is_marker_path (preorder dir n).

(** Events that change the filesystem. *)
Definition is_write (e : event) : bool :=
  match e with
  | EvMkdir _ | EvWriteFile _ _ => true
  | _ => false
  end.

(** Messages to the user. *)
Definition is_message (e : event) : bool :=
  match e with
  | EvConsoleError _ | EvConsoleLog _
  | EvShowErrorMessage _ | EvShowInformationMessage _ => true
  | _ => false
  end.

(** Events that only read the filesystem. *)
Definition is_read (e : event) : bool :=
  match e with
  | EvExists _ | EvStat _ | EvReaddir _ => true
  | _ => false
  end.

(** A computation that leaves the tree as it is, emits only reads and does
    not end the process. *)
Definition read_only {A} (m : M A) : Prop :=
  forall fs,
    match m fs with
    | (c, fs', t) =>
        fs' = fs /\ forallb is_read t = true /\ forall code, c <> Exit code
    end.

(** The three components of a run. *)
Definition outcome {A} (r : completion A * node * list event) : completion A :=
  fst (fst r).

Definition final {A} (r : completion A * node * list event) : node :=
  snd (fst r).

Definition trace {A} (r : completion A * node * list event) : list event :=
  snd r.

(** [p] is a directory strictly below [dir] whose own name is a marker. *)
Definition marker_below (fs : node) (dir p : path) : Prop :=
  exists suffix, suffix <> [] /\ p = dir ++ suffix
                 /\ is_marker (basename p) = true /\ is_dir fs p = true.

(** The files the table is written to. *)
Definition hookPaths (hooksPath : path) (hooks : table) : list path :=
  map (fun h => join hooksPath (hookFile (fst h))) hooks.

Definition hookWrites (hooksPath : path) (hooks : table) : list event :=
  map (fun h => EvWriteFile (join hooksPath (hookFile (fst h))) (snd h)) hooks.

(** ** The three entry points side by side *)

Inductive variant : Type :=
| EditorExtension (otherFolders : list path)
| CommandLineV1
| CommandLineV2.

(** The resolver each entry point calls on its starting directory. *)
Definition resolver (v : variant) : path -> M (option path) :=
  match v with
  | EditorExtension _ => Extension.findHooksDirectory
  | CommandLineV1 => CliV1.findTargetDirectory
  | CommandLineV2 => CliV2.findTargetDirectory
  end.

(** The entry point started on [start]: the first workspace folder of the
    editor, the working directory of the command-line tools. *)
Definition entryPoint (v : variant) (hooks : table) (start : path) : M unit :=
  match v with
  | EditorExtension others => Extension.createHooksFolder hooks (Some (start :: others))
  | CommandLineV1 => CliV1.createHooksFolder hooks start
  | CommandLineV2 => CliV2.createHooksFolder hooks start
  end.

(** What each entry point reports when no target is found, and how it ends. *)
Definition notFoundMessage (v : variant) : event :=
  match v with
  | EditorExtension _ =>
      EvShowErrorMessage "No src or app folder found in the workspace."
  | CommandLineV1 =>
      EvConsoleError
        "No src or app folder found in the current directory or its subdirectories."
  | CommandLineV2 =>
      EvConsoleError
        "No src, src/app, or app folder found in the current directory."
  end.

Definition notFoundCompletion (v : variant) : completion unit :=
  match v with
  | EditorExtension _ => Normal tt
  | CommandLineV1 | CommandLineV2 => Exit 1
  end.

Definition successMessage (v : variant) (hooksPath : path) : event :=
  match v with
  | EditorExtension _ => EvShowInformationMessage "Hooks folder created."
  | CommandLineV1 | CommandLineV2 =>
      EvConsoleLog ("Hooks folder created successfully in " ++ fsPath hooksPath)
  end.

(** Every way an entry point is started: on a starting directory (the
    working directory of a command-line tool, the first workspace folder of
    the editor), or, in the editor, with [workspaceFolders] undefined or
    empty. *)
Inductive invocation : Type :=
| Started (v : variant) (start : path)
| NoWorkspace
| EmptyWorkspace.

Definition invoke (hooks : table) (i : invocation) : M unit :=
  match i with
  | Started v start => entryPoint v hooks start
  | NoWorkspace => Extension.createHooksFolder hooks None
  | EmptyWorkspace => Extension.createHooksFolder hooks (Some [])
  end.

(** The invocations of the command-line tools. *)
Definition commandLine (i : invocation) : bool :=
  match i with
  | Started CommandLineV1 _ | Started CommandLineV2 _ => true
  | _ => false
  end.

(** [p] is [start] joined with one name. *)
Definition is_child (start p : path) : bool :=
  if list_eq_dec string_dec p (join start (basename p)) then true else false.

(** The three checks of Policy B as the specification words them, over
    what exists and is a directory. *)
Definition shallowChoice (fs : node) (dir : path) : option path :=
  if is_dir fs (join dir "src") then
    if is_dir fs (join (join dir "src") "app") then Some (join (join dir "src") "app")
    else Some (join dir "src")
  else if is_dir fs (join dir "app") then Some (join dir "app")
  else None.

(** File writes among the events. *)
Definition is_file_write (e : event) : bool :=
  match e with
  | EvWriteFile _ _ => true
  | _ => false
  end.

(** The write events of a complete stamping run: the directory creation
    when [hooksPath] did not exist, then one write per table entry. *)
Definition stampWrites (fs : node) (hooksPath : path) (hooks : table)
  : list event :=
  match obs fs hooksPath with
  | Some _ => []
  | None => [EvMkdir hooksPath]
  end ++ hookWrites hooksPath hooks.

(** A resolver that, on every well-formed tree holding exactly one folder
    named [src] or [app], returns that folder. *)
Definition finds_single_marker (find : path -> M (option path)) : Prop :=
  forall fs start es p,
    resolve fs start = inr (Dir es) ->
    well_formed (Dir es) = true ->
    markerDirs start (Dir es) = [p] ->
    outcome (find start fs) = Normal (Some p).

(** An entry point out of which no exception escapes. *)
Definition never_throws (run : node -> completion unit * node * list event)
  : Prop :=
  forall fs e, outcome (run fs) <> Throw e.

(** ** Sample trees *)

(** [/proj/src/components], [/proj/src/app/page.tsx] *)
Definition projEntries : list (string * node) :=
  [("package.json", File "{}");
   ("src",
    Dir [("components", Dir []);
         ("app", Dir [("page.tsx", File "export default 1")])])].

Definition projFs : node := Dir [("proj", Dir projEntries)].

(** [/empty] holds no [src] or [app] at any depth; [Src] differs in case. *)
Definition emptyEntries : list (string * node) :=
  [("README.md", File "hello"); ("lib", Dir [("Src", Dir [])])].

Definition emptyFs : node := Dir [("empty", Dir emptyEntries)].

(** [/mono/packages/web/src]: one marker, three levels down. *)
Definition monoEntries : list (string * node) :=
  [("packages", Dir [("web", Dir [("src", Dir [("index.ts", File "x")])])])].

Definition monoFs : node := Dir [("mono", Dir monoEntries)].

(** [/clash/src/hooks] is a regular file. *)
Definition clashFs : node :=
  Dir [("clash", Dir [("src", Dir [("hooks", File "notes")])])].

(** [/src/lib/app]: the starting directory is itself named [src]. *)
Definition nestedEntries : list (string * node) :=
  [("lib", Dir [("app", Dir [])])].

Definition nestedFs : node := Dir [("src", Dir nestedEntries)].

(** [/site/app] with an older [hooks] folder holding a stale template and a
    file of the user's own. *)
Definition siteEntries : list (string * node) :=
  [("app",
    Dir [("hooks",
          Dir [("useFetch.ts", File "stale"); ("useAuth.ts", File "mine")])])].

Definition siteFs : node := Dir [("site", Dir siteEntries)].

Definition sampleTemplate (name : string) : string :=
  "export function " ++ name ++ "() {}".

Definition sampleHooks : table := hooksOver hookNames7 sampleTemplate.
Definition sampleHooks4 : table := hooksOver hookNames4 sampleTemplate.

(** ** Further vocabulary *)

(** [q] lies at or below [p]. *)
Definition is_prefix (p q : path) : Prop := exists r, q = p ++ r.

(** What [readdirSync] and [statSync] can tell of a path: the error code, or
    that it is a file, or that it is a directory with these entry names. *)
Definition look (fs : node) (q : path) : errno + option (list string) :=
  match resolve fs q with
  | inl e => inl e
  | inr (File _) => inr None
  | inr (Dir es) => inr (Some (map fst es))
  end.

(** Components none of which is a marker. *)
Definition unmarked (s : list string) : bool :=
  forallb (fun c => negb (is_marker c)) s.

(** A call the recursive search started on [dir] may issue: listing a
    directory reached from [dir] through folders not named [src] or [app],
    or looking at an entry of such a directory. *)
Definition confined (dir : path) (e : event) : Prop :=
  match e with
  | EvReaddir q => exists s, q = dir ++ s /\ unmarked s = true
  | EvStat q => exists s name, q = dir ++ s ++ [name] /\ unmarked s = true
  | _ => False
  end.

(** A computation that runs on [fs1] as it runs on [fs]: same completion,
    same calls, each tree left as it is. *)
Definition agree {A} (fs fs1 : node) (m : M A) : Prop :=
  forall c t, m fs = (c, fs, t) -> m fs1 = (c, fs1, t).

(** [/site/app/hooks/useFetch.ts] is a folder. *)
Definition takenFs : node :=
  Dir [("site", Dir [("app", Dir [("hooks", Dir [("useFetch.ts", Dir [])])])])].

(** A run of the recursive search started on [dir0] that issues only calls
    confined to [dir0], and whose result, if any, is a marker reached from
    [dir0] through folders that are not markers. *)
Definition stops_at_marker (dir0 : path)
    (r : completion (option path) * node * list event) : Prop :=
  Forall (confined dir0) (trace r)
  /\ forall p, outcome r = Normal (Some p) ->
       exists s name, p = dir0 ++ s ++ [name]
                      /\ unmarked s = true /\ is_marker name = true.

(** ** The callers *)

(** Both command-line files end with the call [createHooksFolder();].  Node
    ends the process with status 0 when the module body returns, with the
    given status on [process.exit], and with status 1 when an exception is
    left uncaught. *)
Definition exitStatus (c : completion unit) : Z :=
  match c with
  | Normal _ => 0
  | Exit code => code
  | Throw _ => 1
  | OutOfFuel => 1
  end.

(** The command registered by [activate]:
    [() => { createHooksFolder(context); }].  The promise is dropped, so the
    callback returns normally whatever [createHooksFolder] does; a rejection
    stays unhandled and is given back here beside the run. *)
Definition commandCallback (hooks : table)
    (workspaceFolders : option (list path))
  : node -> completion unit * node * list event * option exn :=
  fun fs =>
    match Extension.createHooksFolder hooks workspaceFolders fs with
    | (Throw e, fs', t) => (Normal tt, fs', t, Some e)
    | (c, fs', t) => (c, fs', t, None)
    end.

(** ** The hooks the repository ships as source files *)

(** *** [useThrottle] *)

Module UseThrottle.
Section Throttle.
Variable Args : Type.

(** One call of the throttled function: what [Date.now()] gives, the [delay]
    of the render the function was made in, and the arguments.  Times are
    whole milliseconds, as [Date.now()] gives them; the delay is any finite
    number, a rational here (every finite double is one), so that the
    comparison below is the exact one the code makes. *)
Record call : Type := { now : Z; delay : Q; args : Args }.

(** The body of [throttledFunction].  [lastCall] is [lastCall.current]; the
    result is its new value and the arguments [callback] is called with, if
    it is called. *)
Definition throttledFunction (lastCall : Z) (c : call) : Z * option Args :=
  match (inject_Z (now c - lastCall) ?= delay c)%Q with
  | Gt => (now c, Some (args c))
  | _ => (lastCall, None)
  end.

(** Successive calls on one mounted component: the ref lives as long as the
    component does.  Gives the final [lastCall.current] and the calls that
    reached [callback], in order. *)
Fixpoint calls (lastCall : Z) (cs : list call) : Z * list call :=
  match cs with
  | [] => (lastCall, [])
  | c :: rest =>
      match throttledFunction lastCall c with
      | (lastCall', Some _) =>
          let (final, invoked) := calls lastCall' rest in (final, c :: invoked)
      | (lastCall', None) => calls lastCall' rest
      end
  end.

(** [useRef(0)] *)
Definition mounted (cs : list call) : Z * list call := calls 0 cs.

(** Each call comes more than its delay after the one before it. *)
Fixpoint spaced (last : Z) (l : list call) : Prop :=
  match l with
  | [] => True
  | c :: l' => (delay c < inject_Z (now c - last))%Q /\ spaced (now c) l'
  end.

(** The time of the last call of [l], or [last] when there is none. *)
Definition lastTime (last : Z) (l : list call) : Z :=
  fold_left (fun _ c => now c) l last.

End Throttle.

Arguments lastTime {Args} last l.
Arguments now {Args} c.
Arguments delay {Args} c.
Arguments args {Args} c.
Arguments throttledFunction {Args} lastCall c.
Arguments calls {Args} lastCall cs.
Arguments mounted {Args} cs.
Arguments spaced {Args} last l.

(** A call at a given time, with a delay of 100 ms and no argument. *)
Definition sampleCall (t : Z) : call unit :=
  {| now := t; delay := 100%Q; args := tt |}.

(** A call at a given time with a delay of 16.5 ms. *)
Definition frameCall (t : Z) : call unit :=
  {| now := t; delay := (33 # 2)%Q; args := tt |}.

End UseThrottle.

(** *** [useFetch] *)

Module UseFetch.
Section Fetch.

(** The type of [data] and of [response.json()]'s result ([any]), with the
    [null] the state starts from. *)
Variable Data : Type.
Variable null : Data.

(** What a [catch] clause can receive: an [Error] with its message, or any
    other value. *)
Inductive thrown : Type :=
| ErrorObject (message : string)
| OtherValue.

(** How [fetch(url)] and then [response.json()] end. *)
Inductive body : Type :=
| Json (result : Data)
| JsonRejects (err : thrown).

Inductive fetched : Type :=
| Rejects (err : thrown)
| Responds (ok : bool) (b : body).

Record state : Type := { data : Data; loading : bool; error : option string }.

(** The three [useState] calls. *)
Definition initial : state :=
  {| data := null; loading := true; error := None |}.

(** The [catch] clause. *)
Definition catch (err : thrown) (s : state) : state :=
  match err with
  | ErrorObject message =>
      {| data := data s; loading := loading s; error := Some message |}
  | OtherValue =>
      {| data := data s; loading := loading s;
         error := Some "An unknown error occurred" |}
  end.

(** One run of [fetchData], from the request to the [finally] clause, as the
    state updates it makes. *)
Definition fetchData (r : fetched) (s : state) : state :=
  let s1 :=
    match r with
    | Rejects err => catch err s
    | Responds ok b =>
        if negb ok then catch (ErrorObject "Error fetching data") s
        else
          match b with
          | Json result =>
              {| data := result; loading := loading s; error := error s |}
          | JsonRejects err => catch err s
          end
    end in
  {| data := data s1; loading := false; error := error s1 |}.

(** The effect starts a request whenever [url] changes, sets nothing itself
    and cancels nothing, so the state of a mounted component is the initial
    state with the requests applied in the order in which they finish. *)
Definition finished (rs : list fetched) : state :=
  fold_left (fun s r => fetchData r s) rs initial.

(** A request that ends in the [catch] clause. *)
Definition fails (r : fetched) : bool :=
  match r with
  | Responds true (Json _) => false
  | _ => true
  end.

End Fetch.

Arguments Json {Data} result.
Arguments JsonRejects {Data} err.
Arguments Rejects {Data} err.
Arguments Responds {Data} ok b.
Arguments data {Data} s.
Arguments loading {Data} s.
Arguments error {Data} s.
Arguments initial {Data} null.
Arguments fetchData {Data} r s.
Arguments finished {Data} null rs.
Arguments fails {Data} r.

End UseFetch.

(** *** [useLocalStorage] *)

Module UseLocalStorage.
Section LocalStorage.

(** The type of the stored value, and [JSON] on it: [parse] is [JSON.parse]
    ([None] when it throws), [stringify] gives the string [setItem] stores
    for [JSON.stringify(value)] ([None] when it throws). *)
Variable T : Type.
Variable parse : string -> option T.
Variable stringify : T -> option string.

(** [window.localStorage]: the item under each key, if any. *)
Definition Storage : Type := string -> option string.

(** Whether [setItem] takes the item; when it does not, it throws (the
    quota is exceeded). *)
Variable accepts : Storage -> string -> string -> bool.

Definition getItem (s : Storage) (key : string) : option string := s key.

Definition setItem (s : Storage) (key value : string) : option Storage :=
  if accepts s key value
  then Some (fun k => if String.eqb k key then Some value else s k)
  else None.

Definition removeItem (s : Storage) (key : string) : Storage :=
  fun k => if String.eqb k key then None else s k.

(** The initializer passed to [useState]: the value a mount starts from, and
    what it prints.  [item ? ... : initialValue] takes the initial value for
    [null] and for the empty string. *)
Definition initialState (key : string) (initialValue : T) (s : Storage)
  : T * list string :=
  match getItem s key with
  | None => (initialValue, [])
  | Some item =>
      if String.eqb item "" then (initialValue, [])
      else
        match parse item with
        | Some v => (v, [])
        | None => (initialValue, ["Error reading localStorage:"])
        end
  end.

(** [setValue], as made by a render whose state is [storedValue]: the value
    passed to [setStoredValue], the storage it leaves, what it prints.
    [value] is a value or an updater; an updater is taken to return. *)
Definition setValue (key : string) (storedValue : T) (value : T + (T -> T))
    (s : Storage) : T * Storage * list string :=
  let valueToStore :=
    match value with
    | inl v => v
    | inr f => f storedValue
    end in
  match stringify valueToStore with
  | None => (valueToStore, s, ["Error setting localStorage:"])
  | Some item =>
      match setItem s key item with
      | Some s' => (valueToStore, s', [])
      | None => (valueToStore, s, ["Error setting localStorage:"])
      end
  end.

(** [removeValue]: the value passed to [setStoredValue] and the storage. *)
Definition removeValue (key : string) (initialValue : T) (s : Storage)
  : T * Storage :=
  (initialValue, removeItem s key).

End LocalStorage.

Arguments getItem s key /.
Arguments initialState {T} parse key initialValue s.
Arguments setValue {T} stringify accepts key storedValue value s.
Arguments removeValue {T} key initialValue s.

(** A tiny [JSON] for booleans, and a storage that takes items of at most
    four characters. *)
Definition parseBool (item : string) : option bool :=
  if String.eqb item "true" then Some true
  else if String.eqb item "false" then Some false
  else None.

Definition stringifyBool (b : bool) : option string :=
  Some (if b then "true" else "false").

Definition smallStorage (s : Storage) (key value : string) : bool :=
  Nat.leb (String.length value) 4.

Definition emptyStorage : Storage := fun _ => None.

End UseLocalStorage.

(** *** [useDebounce] *)

Module UseDebounce.
Section Debounce.

(** The type of the debounced value; [same] is the comparison React makes
    between the dependencies of two renders. *)
Variable T : Type.
Variable same : forall x y : T, {x = y} + {x <> y}.

(** The arguments of one render, which are also the effect's dependencies. *)
Record props : Type := { value : T; delay : Z; immediate : bool }.

Definition same_props (p q : props) : bool :=
  (if same (value p) (value q) then true else false)
  && Z.eqb (delay p) (delay q)
  && Bool.eqb (immediate p) (immediate q).

(** A mounted component: the state, the ref, the timeouts that are pending
    (each with the value its callback will set), the next timeout id, and
    the dependencies the effect last ran with.  A timeout id is a truthy
    value, whatever its number here. *)
Record state : Type := {
  debouncedValue : T;
  timerRef : option nat;
  timers : list (nat * T);
  nextId : nat;
  current : props
}.

(** [clearTimeout(id)]; clearing [null] or a timeout that is no longer
    pending does nothing. *)
Definition clearTimeout (id : option nat) (ts : list (nat * T))
  : list (nat * T) :=
  match id with
  | Some i => filter (fun t => negb (Nat.eqb (fst t) i)) ts
  | None => ts
  end.

(** The body of the effect. *)
Definition effect (p : props) (s : state) : state :=
  let debounced :=
    if immediate p && match timerRef s with None => true | Some _ => false end
    then value p else debouncedValue s in
  let pending :=
    match timerRef s with
    | Some id => clearTimeout (Some id) (timers s)
    | None => timers s
    end in
  {| debouncedValue := debounced;
     timerRef := Some (nextId s);
     timers := pending ++ [(nextId s, value p)];
     nextId := S (nextId s);
     current := p |}.

(** The function the effect returns. *)
Definition cleanup (s : state) : state :=
  {| debouncedValue := debouncedValue s;
     timerRef := None;
     timers := clearTimeout (timerRef s) (timers s);
     nextId := nextId s;
     current := current s |}.

(** The first render: [useState(value)], [useRef(null)], then the effect. *)
Definition mount (p : props) : state :=
  effect p {| debouncedValue := value p; timerRef := None; timers := [];
              nextId := 0; current := p |}.

(** A later render: when a dependency changed, React runs the cleanup of
    the previous effect and then the effect. *)
Definition render (p : props) (s : state) : state :=
  if same_props p (current s) then s else effect p (cleanup s).

(** A pending timeout fires: its callback sets the state. *)
Definition fire (id : nat) (s : state) : state :=
  match find (fun t => Nat.eqb (fst t) id) (timers s) with
  | Some (_, v) =>
      {| debouncedValue := v;
         timerRef := timerRef s;
         timers := clearTimeout (Some id) (timers s);
         nextId := nextId s;
         current := current s |}
  | None => s
  end.

Definition unmount (s : state) : state := cleanup s.

Inductive step : Type :=
| Render (p : props)
| Fire (id : nat).

Definition after (s : state) (e : step) : state :=
  match e with
  | Render p => render p s
  | Fire id => fire id s
  end.

(** The component after its first render and a sequence of renders and
    timeouts. *)
Definition run (p : props) (es : list step) : state :=
  fold_left after es (mount p).

(** Every render of the sequence asks for the leading edge. *)
Definition all_immediate (es : list step) : bool :=
  forallb (fun e => match e with Render p => immediate p | Fire _ => true end) es.

(** The arguments of the last render of the sequence. *)
Fixpoint latest (p : props) (es : list step) : props :=
  match es with
  | [] => p
  | Render q :: es' => latest q es'
  | Fire _ :: es' => latest p es'
  end.

(** At most one timeout is pending; it is the one the ref holds and it
    carries the latest value. *)
Definition one_timer (s : state) : Prop :=
  exists id,
    timerRef s = Some id /\ id < nextId s
    /\ (timers s = [] \/ timers s = [(id, value (current s))]).

End Debounce.

Arguments value {T} p.
Arguments delay {T} p.
Arguments immediate {T} p.
Arguments debouncedValue {T} s.
Arguments timerRef {T} s.
Arguments timers {T} s.
Arguments nextId {T} s.
Arguments current {T} s.
Arguments Render {T} p.
Arguments Fire {T} id.
Arguments all_immediate {T} es.
Arguments latest {T} p es.
Arguments one_timer {T} s.

(** Renders of a number with a delay of 300 ms. *)
Definition trailing (n : nat) : props nat :=
  {| value := n; delay := 300; immediate := false |}.

Definition leading (n : nat) : props nat :=
  {| value := n; delay := 300; immediate := true |}.

End UseDebounce.

(** ** Induction on trees *)

Section NodeInduction.
Variable P : node -> Prop.
Hypothesis P_File : forall d, P (File d).
Hypothesis P_Dir : forall es, Forall (fun e => P (snd e)) es -> P (Dir es).

Fixpoint node_induction (n : node) : P n :=
  match n with
  | File d => P_File d
  | Dir es =>
      P_Dir es
        ((fix go (l : list (string * node)) : Forall (fun e => P (snd e)) l :=
            match l with
            | [] => Forall_nil _
            | (s, c) :: l' => Forall_cons (s, c) (node_induction c) (go l')
            end) es)
  end.
End NodeInduction.

(** * Lemmas *)

(** ** Trees and paths *)

Lemma height_Dir es : height (Dir es) = S (heights es).
Proof. reflexivity. Qed.

Lemma heights_In name c es : In (name, c) es -> height c <= heights es.
Proof.
  induction es as [|[n' c'] es IH]; simpl; [tauto|].
  intros [E|H].
  - inversion E; subst. apply Nat.le_max_l.
  - etransitivity; [apply IH, H | apply Nat.le_max_r].
Qed.

Lemma entry_In name c es : entry name es = Some c -> In (name, c) es.
Proof.
  induction es as [|[n' c'] es IH]; simpl; [discriminate|].
  destruct (String.eqb name n') eqn:E.
  - apply String.eqb_eq in E. intros H; inversion H; subst. now left.
  - intros H. right. now apply IH.
Qed.

Lemma entry_None name es : entry name es = None <-> ~ In name (map fst es).
Proof.
  induction es as [|[n' c'] es IH]; simpl; [tauto|].
  destruct (String.eqb name n') eqn:E.
  - apply String.eqb_eq in E. subst. split; [discriminate|]. intros H. elim H. now left.
  - apply String.eqb_neq in E. rewrite IH. split.
    + intros H [H1|H1]; [congruence|tauto].
    + tauto.
Qed.

Lemma entry_names name es :
  In name (map fst es) -> exists c, entry name es = Some c.
Proof.
  intros H. destruct (entry name es) eqn:E; [eauto|].
  apply entry_None in E. tauto.
Qed.

Lemma nodupb_NoDup l : nodupb l = true <-> NoDup l.
Proof.
  induction l as [|x l IH]; simpl.
  - split; [constructor|reflexivity].
  - rewrite andb_true_iff, negb_true_iff, IH. split.
    + intros [H1 H2]. constructor; [|assumption].
      intros Hin. assert (existsb (String.eqb x) l = true); [|congruence].
      apply existsb_exists. exists x. split; [assumption|apply String.eqb_refl].
    + intros H. inversion H; subst. split; [|assumption].
      destruct (existsb (String.eqb x) l) eqn:E; [|reflexivity].
      apply existsb_exists in E. destruct E as [y [Hy E]].
      apply String.eqb_eq in E. subst. contradiction.
Qed.

Lemma entry_NoDup name c es :
  NoDup (map fst es) -> In (name, c) es -> entry name es = Some c.
Proof.
  induction es as [|[n' c'] es IH]; simpl; [tauto|].
  intros Hnd [E|H]; inversion Hnd; subst.
  - inversion E; subst. now rewrite String.eqb_refl.
  - destruct (String.eqb name n') eqn:E.
    + apply String.eqb_eq in E. subst. elim H2.
      change n' with (fst (n', c)). now apply in_map.
    + now apply IH.
Qed.

Lemma well_formed_Dir es :
  well_formed (Dir es) = nodupb (map fst es) && well_formed_entries es.
Proof. reflexivity. Qed.

Lemma well_formed_entries_In name c es :
  well_formed_entries es = true -> In (name, c) es -> well_formed c = true.
Proof.
  induction es as [|[n' c'] es IH]; simpl; [tauto|].
  rewrite andb_true_iff. intros [H1 H2] [E|H].
  - inversion E; subst. assumption.
  - now apply IH.
Qed.

Lemma resolve_app n p q :
  resolve n (p ++ q) =
  match resolve n p with inr m => resolve m q | inl e => inl e end.
Proof.
  revert n. induction p as [|c p IH]; intros n; simpl; [reflexivity|].
  destruct n as [d|es]; [reflexivity|].
  destruct (entry c es); [apply IH|reflexivity].
Qed.

Lemma resolve_join fs dir name es :
  resolve fs dir = inr (Dir es) ->
  resolve fs (join dir name) =
  match entry name es with Some c => inr c | None => inl ENOENT end.
Proof.
  intros H. unfold join. rewrite resolve_app, H. simpl.
  destruct (entry name es); reflexivity.
Qed.

Lemma resolve_length n p m : resolve n p = inr m -> List.length p + height m <= height n.
Proof.
  revert n. induction p as [|c p IH]; intros n; simpl.
  - intros H; inversion H; subst. lia.
  - destruct n as [d|es]; [discriminate|].
    destruct (entry c es) as [ch|] eqn:E; [|discriminate].
    intros H. apply IH in H. apply entry_In, heights_In in E.
    rewrite height_Dir. lia.
Qed.

Lemma basename_join dir name : basename (join dir name) = name.
Proof. unfold basename, join. apply last_last. Qed.

Lemma is_marker_iff name : is_marker name = true <-> name = "src" \/ name = "app".
Proof.
  unfold is_marker. rewrite orb_true_iff, !String.eqb_eq. tauto.
Qed.

Lemma is_dir_iff fs p : is_dir fs p = true <-> exists es, resolve fs p = inr (Dir es).
Proof.
  unfold is_dir. destruct (resolve fs p) as [e|[d|es]]; split;
    try discriminate; try (intros [es' H]; discriminate); eauto.
Qed.

Lemma find_app {A} (f : A -> bool) l1 l2 :
  find f (l1 ++ l2) =
  match find f l1 with Some x => Some x | None => find f l2 end.
Proof.
  induction l1 as [|x l1 IH]; simpl; [reflexivity|].
  destruct (f x); [reflexivity|apply IH].
Qed.

(** ** Computations that only read *)

Lemma read_only_ret {A} (a : A) : read_only (ret a).
Proof. intros fs. simpl. repeat split; auto; discriminate. Qed.

Lemma read_only_bind {A B} (m : M A) (k : A -> M B) :
  read_only m -> (forall a, read_only (k a)) -> read_only (bind m k).
Proof.
  intros Hm Hk fs. unfold bind. specialize (Hm fs).
  destruct (m fs) as [[c fs1] t1]. destruct Hm as [-> [Ht1 Hc1]].
  destruct c as [a| | |]; try (repeat split; auto; discriminate).
  - specialize (Hk a fs). destruct (k a fs) as [[c2 fs2] t2].
    destruct Hk as [-> [Ht2 Hc2]]. repeat split; auto.
    rewrite forallb_app, Ht1, Ht2. reflexivity.
  - elim (Hc1 code). reflexivity.
Qed.

Lemma read_only_existsSync p : read_only (existsSync p).
Proof. intros fs. unfold existsSync. repeat split; auto; discriminate. Qed.

Lemma read_only_statSync p : read_only (statSync p).
Proof.
  intros fs. unfold statSync.
  destruct (resolve fs p); repeat split; auto; discriminate.
Qed.

Lemma read_only_readdirSync p : read_only (readdirSync p).
Proof.
  intros fs. unfold readdirSync.
  destruct (resolve fs p) as [e|[d|es]]; repeat split; auto; discriminate.
Qed.

Lemma read_only_out_of_fuel {A} : read_only (@out_of_fuel A).
Proof. intros fs. simpl. repeat split; auto; discriminate. Qed.

Create HintDb ro.

#[local] Hint Resolve read_only_ret read_only_bind read_only_existsSync
  read_only_statSync read_only_readdirSync read_only_out_of_fuel : ro.

Lemma read_only_loop self dir entries :
  (forall p, read_only (self p)) -> read_only (PolicyA.loop self dir entries).
Proof.
  intros Hself. induction entries as [|e rest IH]; simpl; auto with ro.
  apply read_only_bind; auto with ro. intros stats.
  destruct (isDirectory stats); [|assumption].
  destruct (is_marker e); auto with ro.
  apply read_only_bind; auto. intros [r|]; auto with ro.
Qed.

Lemma read_only_findTargetDirectory_fuel fuel dir :
  read_only (PolicyA.findTargetDirectory_fuel fuel dir).
Proof.
  revert dir. induction fuel as [|f IH]; intros dir; simpl; auto with ro.
  apply read_only_bind; auto with ro. intros entries.
  apply read_only_loop. assumption.
Qed.

Lemma read_only_policyA dir : read_only (PolicyA.findTargetDirectory dir).
Proof.
  intros fs. unfold PolicyA.findTargetDirectory.
  apply read_only_findTargetDirectory_fuel.
Qed.

Lemma read_only_existsAndIsDirectory p : read_only (CliV2.existsAndIsDirectory p).
Proof.
  unfold CliV2.existsAndIsDirectory. apply read_only_bind; auto with ro.
  intros [|]; auto with ro.
Qed.

Lemma read_only_policyB dir : read_only (CliV2.findTargetDirectory dir).
Proof.
  unfold CliV2.findTargetDirectory.
  apply read_only_bind; [apply read_only_existsAndIsDirectory|].
  intros [|]; (apply read_only_bind; [apply read_only_existsAndIsDirectory|]);
    intros [|]; auto with ro.
Qed.

(** ** Policy A: enough fuel *)

Lemma loop_stable self1 self2 dir fs l :
  (forall name, In name l -> is_dir fs (join dir name) = true ->
     self1 (join dir name) fs = self2 (join dir name) fs
     /\ snd (fst (self1 (join dir name) fs)) = fs
     /\ outcome (self1 (join dir name) fs) <> OutOfFuel) ->
  PolicyA.loop self1 dir l fs = PolicyA.loop self2 dir l fs
  /\ outcome (PolicyA.loop self1 dir l fs) <> OutOfFuel.
Proof.
  induction l as [|name rest IH]; intros Hself.
  - simpl. split; [reflexivity|discriminate].
  - assert (IH' := IH (fun n Hn => Hself n (or_intror Hn))). clear IH.
    simpl. unfold bind at 1 3 5. unfold statSync.
    pose proof (Hself name (or_introl eq_refl)) as Hn.
    unfold is_dir in Hn.
    destruct (resolve fs (join dir name)) as [e|[d|es]]; simpl.
    + split; [reflexivity|discriminate].
    + destruct IH' as [-> IH']. split; [reflexivity|].
      unfold outcome in *. destruct (PolicyA.loop self2 dir rest fs) as [[c fs'] t].
      simpl in *. assumption.
    + destruct (is_marker name).
      * simpl. split; [reflexivity|discriminate].
      * destruct (Hn eq_refl) as [E [Hfs Hc]]. unfold bind.
        rewrite <- E. unfold outcome in *.
        destruct (self1 (join dir name) fs) as [[c fs'] t]. simpl in *. subst fs'.
        destruct c as [[r|]| | |]; simpl; try (split; [reflexivity|discriminate]).
        -- destruct IH' as [-> IH']. split; [reflexivity|].
           destruct (PolicyA.loop self2 dir rest fs) as [[c fs'] t'].
           simpl in *. assumption.
        -- congruence.
Qed.

Lemma fuel_stable f1 : forall f2 fs dir m,
  resolve fs dir = inr m -> height m < f1 -> height m < f2 ->
  PolicyA.findTargetDirectory_fuel f1 dir fs = PolicyA.findTargetDirectory_fuel f2 dir fs
  /\ outcome (PolicyA.findTargetDirectory_fuel f1 dir fs) <> OutOfFuel.
Proof.
  induction f1 as [|f1 IH]; intros f2 fs dir m Hm H1 H2; [lia|].
  destruct f2 as [|f2]; [lia|].
  simpl. unfold bind at 1 2 3. unfold readdirSync. rewrite Hm.
  destruct m as [d|es].
  - split; [reflexivity|discriminate].
  - rewrite height_Dir in H1, H2.
    destruct (loop_stable (PolicyA.findTargetDirectory_fuel f1)
                (PolicyA.findTargetDirectory_fuel f2) dir fs (map fst es)) as [E Hc].
    + intros name Hin Hd. apply is_dir_iff in Hd. destruct Hd as [es' Hd].
      pose proof Hd as Hd'. rewrite (resolve_join _ _ _ _ Hm) in Hd'.
      destruct (entry name es) as [c|] eqn:Ec; [|discriminate].
      inversion Hd'; subst c. apply entry_In, heights_In in Ec.
      destruct (IH f2 fs (join dir name) (Dir es') Hd) as [E Hc]; try lia.
      split; [assumption|]. split; [|assumption].
      pose proof (read_only_findTargetDirectory_fuel f1 (join dir name) fs) as Hro.
      destruct (PolicyA.findTargetDirectory_fuel f1 (join dir name) fs) as [[c fs'] t].
      simpl. tauto.
    + rewrite <- E. unfold outcome in *.
      destruct (PolicyA.loop (PolicyA.findTargetDirectory_fuel f1) dir (map fst es) fs)
        as [[c fs'] t]. simpl in *. split; [reflexivity|assumption].
Qed.

Lemma fuel_stable_any fs dir f1 f2 :
  height fs < f1 -> height fs < f2 ->
  PolicyA.findTargetDirectory_fuel f1 dir fs = PolicyA.findTargetDirectory_fuel f2 dir fs
  /\ outcome (PolicyA.findTargetDirectory_fuel f1 dir fs) <> OutOfFuel.
Proof.
  intros H1 H2. destruct (resolve fs dir) as [e|m] eqn:E.
  - destruct f1 as [|f1]; [lia|]. destruct f2 as [|f2]; [lia|].
    simpl. unfold bind, readdirSync. rewrite E. split; [reflexivity|discriminate].
  - pose proof (resolve_length _ _ _ E). apply (fuel_stable f1 f2 fs dir m E); lia.
Qed.

(** ** Policy A: the value it computes *)

Lemma preorder_Dir dir es : preorder dir (Dir es) = preorder_entries dir es.
Proof. reflexivity. Qed.

Lemma preorder_entries_cons dir name c l :
  preorder_entries dir ((name, c) :: l) =
  match c with
  | Dir _ => join dir name :: preorder (join dir name) c
  | File _ => []
  end ++ preorder_entries dir l.
Proof. reflexivity. Qed.

Lemma loop_cons self dir name rest :
  PolicyA.loop self dir (name :: rest) =
  bind (statSync (join dir name)) (fun stats =>
    if isDirectory stats then
      if is_marker name then ret (Some (join dir name))
      else bind (self (join dir name)) (fun result =>
             match result with
             | Some r => ret (Some r)
             | None => PolicyA.loop self dir rest
             end)
    else PolicyA.loop self dir rest).
Proof. reflexivity. Qed.

Lemma statSync_run fs p n :
  resolve fs p = inr n -> statSync p fs = (Normal (stats_of n), fs, [EvStat p]).
Proof. intros H. unfold statSync. now rewrite H. Qed.

Lemma bind_Normal {A B} (m : M A) (k : A -> M B) fs a fs1 t1 :
  m fs = (Normal a, fs1, t1) ->
  bind m k fs = (outcome (k a fs1), snd (fst (k a fs1)), t1 ++ snd (k a fs1)).
Proof.
  intros H. unfold bind. rewrite H. destruct (k a fs1) as [[c fs2] t2]. reflexivity.
Qed.

Lemma loop_correct self dir fs es l :
  resolve fs dir = inr (Dir es) ->
  NoDup (map fst es) ->
  incl l es ->
  (forall name es', In (name, Dir es') l -> is_marker name = false ->
     exists t, self (join dir name) fs
               = (Normal (firstMarker (join dir name) (Dir es')), fs, t)) ->
  exists t, PolicyA.loop self dir (map fst l) fs
            = (Normal (find is_marker_path (preorder_entries dir l)), fs, t).
Proof.
  intros Hdir Hnd. induction l as [|[name c] rest IH]; intros Hincl Hself.
  - exists []. reflexivity.
  - assert (Hin : In (name, c) es) by (apply Hincl; now left).
    destruct IH as [t' IH].
    { intros x Hx. apply Hincl. now right. }
    { intros n es' Hn. apply Hself. now right. }
    assert (Hst : resolve fs (join dir name) = inr c).
    { rewrite (resolve_join _ _ _ _ Hdir), (entry_NoDup _ _ _ Hnd Hin). reflexivity. }
    change (map fst ((name, c) :: rest)) with (name :: map fst rest).
    rewrite loop_cons, preorder_entries_cons.
    rewrite (bind_Normal _ _ _ _ _ _ (statSync_run _ _ _ Hst)).
    destruct c as [d|es']; cbn [stats_of isDirectory].
    + rewrite IH. cbn. eauto.
    + cbn [app find]. unfold is_marker_path at 1. rewrite basename_join.
      destruct (is_marker name) eqn:Em.
      * cbn. eauto.
      * destruct (Hself name es' (or_introl eq_refl) Em) as [t1 E1].
        rewrite (bind_Normal _ _ _ _ _ _ E1). rewrite find_app.
        unfold firstMarker.
        destruct (find is_marker_path (preorder (join dir name) (Dir es'))).
        -- cbn. eauto.
        -- rewrite IH. cbn. eauto.
Qed.

Lemma policyA_fuel_correct f : forall fs dir es,
  resolve fs dir = inr (Dir es) ->
  well_formed (Dir es) = true ->
  height (Dir es) < f ->
  exists t, PolicyA.findTargetDirectory_fuel f dir fs
            = (Normal (firstMarker dir (Dir es)), fs, t).
Proof.
  induction f as [|f IH]; intros fs dir es Hdir Hwf Hh; [lia|].
  rewrite well_formed_Dir, andb_true_iff, nodupb_NoDup in Hwf.
  destruct Hwf as [Hnd Hwf]. rewrite height_Dir in Hh.
  simpl. unfold bind at 1. unfold readdirSync. rewrite Hdir.
  destruct (loop_correct (PolicyA.findTargetDirectory_fuel f) dir fs es es Hdir Hnd)
    as [t E].
  - apply incl_refl.
  - intros name es' Hin _. apply IH.
    + rewrite (resolve_join _ _ _ _ Hdir), (entry_NoDup _ _ _ Hnd Hin). reflexivity.
    + eapply well_formed_entries_In; eassumption.
    + apply heights_In in Hin. lia.
  - rewrite E. unfold firstMarker. rewrite preorder_Dir. eauto.
Qed.

Lemma policyA_correct fs dir es :
  resolve fs dir = inr (Dir es) ->
  well_formed (Dir es) = true ->
  exists t, PolicyA.findTargetDirectory dir fs
            = (Normal (firstMarker dir (Dir es)), fs, t)
            /\ forallb is_read t = true.
Proof.
  intros Hdir Hwf. unfold PolicyA.findTargetDirectory.
  pose proof (resolve_length _ _ _ Hdir) as Hl.
  destruct (policyA_fuel_correct (S (height fs)) fs dir es Hdir Hwf) as [t E]; [lia|].
  exists t. split; [assumption|].
  pose proof (read_only_findTargetDirectory_fuel (S (height fs)) dir fs) as Hro.
  rewrite E in Hro. tauto.
Qed.

(** ** Policy A: where a result lies *)

Lemma marker_below_join fs dir name p :
  marker_below fs (join dir name) p -> marker_below fs dir p.
Proof.
  intros [suffix [Hne [-> [Hm Hd]]]]. exists (name :: suffix).
  split; [discriminate|]. unfold join in *. rewrite <- app_assoc in *. auto.
Qed.

Lemma loop_result self dir fs l :
  (forall q, read_only (self q)) ->
  (forall q r fs' t, self q fs = (Normal (Some r), fs', t) -> marker_below fs q r) ->
  forall p fs' t,
    PolicyA.loop self dir l fs = (Normal (Some p), fs', t) -> marker_below fs dir p.
Proof.
  intros Hro Hself. induction l as [|name rest IH]; intros p fs' t.
  - simpl. discriminate.
  - simpl. unfold bind at 1. unfold statSync.
    destruct (resolve fs (join dir name)) as [e|n] eqn:En; [discriminate|].
    destruct n as [d|es]; simpl.
    + destruct (PolicyA.loop self dir rest fs) as [[c fs1] t1] eqn:El.
      intros H. inversion H; subst. eapply IH; eauto.
    + destruct (is_marker name) eqn:Em.
      * simpl. intros H. inversion H; subst.
        exists [name]. split; [discriminate|]. split; [reflexivity|].
        rewrite basename_join. split; [assumption|].
        unfold is_dir. now rewrite En.
      * unfold bind. pose proof (Hro (join dir name) fs) as Hr.
        destruct (self (join dir name) fs) as [[c fs1] t1] eqn:Es.
        destruct Hr as [-> _].
        destruct c as [[r|]| | |]; simpl; try discriminate.
        -- intros H. inversion H; subst.
           eapply marker_below_join, Hself; eauto.
        -- destruct (PolicyA.loop self dir rest fs) as [[c fs2] t2] eqn:El.
           intros H. inversion H; subst. eapply IH; eauto.
Qed.

Lemma policyA_fuel_result f : forall fs dir p fs' t,
  PolicyA.findTargetDirectory_fuel f dir fs = (Normal (Some p), fs', t) ->
  marker_below fs dir p.
Proof.
  induction f as [|f IH]; intros fs dir p fs' t; simpl; [discriminate|].
  unfold bind at 1. unfold readdirSync.
  destruct (resolve fs dir) as [e|[d|es]]; try discriminate.
  destruct (PolicyA.loop (PolicyA.findTargetDirectory_fuel f) dir (map fst es) fs)
    as [[c fs1] t1] eqn:El.
  simpl. intros H. inversion H; subst.
  eapply loop_result; [| |exact El].
  - intros q. apply read_only_findTargetDirectory_fuel.
  - intros q r fs2 t2. apply IH.
Qed.

(** ** Policy B *)

Lemma existsAndIsDirectory_run p fs :
  exists t, CliV2.existsAndIsDirectory p fs = (Normal (is_dir fs p), fs, t).
Proof.
  unfold CliV2.existsAndIsDirectory, bind, existsSync, statSync, is_dir.
  destruct (resolve fs p) as [e|[d|es]] eqn:E; cbn; rewrite ?E; cbn; eauto.
Qed.

Lemma policyB_run fs dir :
  exists t, CliV2.findTargetDirectory dir fs = (Normal (shallowChoice fs dir), fs, t)
            /\ forallb is_read t = true.
Proof.
  pose proof (read_only_policyB dir fs) as Hro.
  unfold CliV2.findTargetDirectory, shallowChoice in *.
  destruct (existsAndIsDirectory_run (join dir "src") fs) as [t1 E1].
  rewrite (bind_Normal _ _ _ _ _ _ E1) in *.
  destruct (is_dir fs (join dir "src")).
  - destruct (existsAndIsDirectory_run (join (join dir "src") "app") fs) as [t2 E2].
    rewrite (bind_Normal _ _ _ _ _ _ E2) in *.
    destruct (is_dir fs (join (join dir "src") "app")); cbn in *;
      eexists; (split; [reflexivity|tauto]).
  - destruct (existsAndIsDirectory_run (join dir "app") fs) as [t2 E2].
    rewrite (bind_Normal _ _ _ _ _ _ E2) in *.
    destruct (is_dir fs (join dir "app")); cbn in *;
      eexists; (split; [reflexivity|tauto]).
Qed.

Lemma join_join dir a b : join (join dir a) b = dir ++ [a; b].
Proof. unfold join. now rewrite <- app_assoc. Qed.

Lemma basename_app dir a b : basename (dir ++ [a; b]) = b.
Proof. rewrite <- join_join. apply basename_join. Qed.

Lemma shallowChoice_below fs dir p :
  shallowChoice fs dir = Some p ->
  marker_below fs dir p
  /\ (p = dir ++ ["src"] \/ p = dir ++ ["src"; "app"] \/ p = dir ++ ["app"]).
Proof.
  unfold shallowChoice, marker_below.
  destruct (is_dir fs (join dir "src")) eqn:E1;
    [destruct (is_dir fs (join (join dir "src") "app")) eqn:E2|
     destruct (is_dir fs (join dir "app")) eqn:E3]; intros H; inversion H; subst.
  - rewrite join_join in *. split; [exists ["src"; "app"]|right; left; reflexivity].
    rewrite basename_app. repeat split; auto; discriminate.
  - split; [exists ["src"]|left; reflexivity].
    rewrite basename_join. repeat split; auto; discriminate.
  - split; [exists ["app"]|right; right; reflexivity].
    rewrite basename_join. repeat split; auto; discriminate.
Qed.

(** ** The common shape of the entry points *)

Lemma resolver_read_only v start : read_only (resolver v start).
Proof.
  destruct v; simpl; [apply read_only_policyA|apply read_only_policyA|apply read_only_policyB].
Qed.

Lemma resolver_total v start fs : outcome (resolver v start fs) <> OutOfFuel.
Proof.
  destruct v; simpl.
  - apply (fuel_stable_any fs start (S (height fs)) (S (height fs))); lia.
  - apply (fuel_stable_any fs start (S (height fs)) (S (height fs))); lia.
  - destruct (policyB_run fs start) as [t [E _]]. rewrite E. discriminate.
Qed.

(** ** Writing into the tree *)

Lemma entry_replace_same c ch ch' es :
  entry c es = Some ch -> entry c (replace c ch' es) = Some ch'.
Proof.
  induction es as [|[n x] es IH]; simpl; [discriminate|].
  destruct (String.eqb c n) eqn:E; simpl; rewrite E; auto.
Qed.

Lemma entry_replace_other c c' ch' es :
  c' <> c -> entry c' (replace c ch' es) = entry c' es.
Proof.
  intros Hne. induction es as [|[n x] es IH]; simpl; [reflexivity|].
  destruct (String.eqb c n) eqn:E; simpl.
  - apply String.eqb_eq in E. subst n.
    destruct (String.eqb c' c) eqn:E'; [|reflexivity].
    apply String.eqb_eq in E'. contradiction.
  - rewrite IH. reflexivity.
Qed.

Lemma entry_app_new c x es :
  entry c es = None -> entry c (es ++ [(c, x)]) = Some x.
Proof.
  induction es as [|[n y] es IH]; simpl.
  - now rewrite String.eqb_refl.
  - destruct (String.eqb c n); [discriminate|assumption].
Qed.

Lemma entry_app_other c c' x es :
  c' <> c -> entry c' (es ++ [(c, x)]) = entry c' es.
Proof.
  intros Hne. induction es as [|[n y] es IH]; simpl.
  - apply String.eqb_neq in Hne. now rewrite Hne.
  - destruct (String.eqb c' n); [reflexivity|assumption].
Qed.

Lemma obs_nil n : obs n [] = Some (kind_of n).
Proof. reflexivity. Qed.

Lemma obs_cons_Dir es c q :
  obs (Dir es) (c :: q) =
  match entry c es with Some ch => obs ch q | None => None end.
Proof. unfold obs. simpl. destruct (entry c es); reflexivity. Qed.

Lemma obs_cons_File d c q : obs (File d) (c :: q) = None.
Proof. reflexivity. Qed.

Lemma write_resolve p : forall n n' d,
  write n p d = inr n' -> obs n' p = Some (KFile d).
Proof.
  induction p as [|c p IH]; intros n n' d; simpl.
  - destruct n; [|discriminate]. intros H; inversion H. reflexivity.
  - destruct n as [d0|es]; [discriminate|].
    destruct (entry c es) as [ch|] eqn:E.
    + destruct (write ch p d) as [e|ch'] eqn:W; [discriminate|].
      intros H; inversion H; subst. rewrite obs_cons_Dir.
      rewrite (entry_replace_same _ _ _ _ E). eapply IH; eauto.
    + destruct p; [|discriminate]. intros H; inversion H; subst.
      rewrite obs_cons_Dir, (entry_app_new _ _ _ E). reflexivity.
Qed.

Lemma write_frame p : forall n n' d q,
  write n p d = inr n' -> q <> p -> obs n' q = obs n q.
Proof.
  induction p as [|c p IH]; intros n n' d q; simpl.
  - destruct n; [|discriminate]. intros H Hq; inversion H; subst.
    destruct q; [congruence|reflexivity].
  - destruct n as [d0|es]; [discriminate|].
    destruct (entry c es) as [ch|] eqn:E.
    + destruct (write ch p d) as [e|ch'] eqn:W; [discriminate|].
      intros H Hq; inversion H; subst.
      destruct q as [|c' q]; [reflexivity|]. rewrite !obs_cons_Dir.
      destruct (string_dec c' c) as [->|Hne].
      * rewrite (entry_replace_same _ _ _ _ E), E.
        eapply IH; eauto. congruence.
      * rewrite (entry_replace_other _ _ _ _ Hne). reflexivity.
    + destruct p; [|discriminate]. intros H Hq; inversion H; subst.
      destruct q as [|c' q]; [reflexivity|]. rewrite !obs_cons_Dir.
      destruct (string_dec c' c) as [->|Hne].
      * rewrite (entry_app_new _ _ _ E), E.
        destruct q; [congruence|reflexivity].
      * rewrite (entry_app_other _ _ _ _ Hne). reflexivity.
Qed.

Lemma fresh_dirs_obs p : forall q,
  obs (fresh_dirs p) q = None
  \/ (obs (fresh_dirs p) q = Some KDir /\ exists r, p = q ++ r).
Proof.
  induction p as [|c p IH]; intros q; simpl.
  - destruct q; [right; split; [reflexivity|exists []; reflexivity]|left; reflexivity].
  - destruct q as [|c' q].
    + right. split; [reflexivity|]. exists (c :: p). reflexivity.
    + rewrite obs_cons_Dir. simpl.
      destruct (String.eqb c' c) eqn:E; [|left; reflexivity].
      apply String.eqb_eq in E. subst c'.
      destruct (IH q) as [H|[H [r ->]]]; [left; assumption|].
      right. split; [assumption|]. exists r. reflexivity.
Qed.

Lemma mkdirp_is_dir p : forall n n',
  mkdirp n p = inr n' -> obs n' p = Some KDir.
Proof.
  induction p as [|c p IH]; intros n n'; simpl.
  - destruct n; [discriminate|]. intros H; inversion H. reflexivity.
  - destruct n as [d0|es]; [discriminate|].
    destruct (entry c es) as [ch|] eqn:E.
    + destruct (mkdirp ch p) as [e|ch'] eqn:W; [discriminate|].
      intros H; inversion H; subst. rewrite obs_cons_Dir.
      rewrite (entry_replace_same _ _ _ _ E). eapply IH; eauto.
    + intros H; inversion H; subst.
      rewrite obs_cons_Dir, (entry_app_new _ _ _ E).
      clear. induction p as [|c' p IH]; [reflexivity|].
      simpl. rewrite obs_cons_Dir. simpl. now rewrite String.eqb_refl.
Qed.

(** [mkdirp] changes nothing but missing prefixes of its path, which become
    directories. *)
Lemma mkdirp_frame p : forall n n' q,
  mkdirp n p = inr n' ->
  obs n' q = obs n q
  \/ (obs n q = None /\ obs n' q = Some KDir /\ exists r, p = q ++ r).
Proof.
  induction p as [|c p IH]; intros n n' q; simpl.
  - destruct n; [discriminate|]. intros H; inversion H. now left.
  - destruct n as [d0|es]; [discriminate|].
    destruct (entry c es) as [ch|] eqn:E.
    + destruct (mkdirp ch p) as [e|ch'] eqn:W; [discriminate|].
      intros H; inversion H; subst.
      destruct q as [|c' q]; [left; reflexivity|]. rewrite !obs_cons_Dir.
      destruct (string_dec c' c) as [->|Hne].
      * rewrite (entry_replace_same _ _ _ _ E), E.
        destruct (IH ch ch' q W) as [H1|[H1 [H2 [r ->]]]]; [now left|].
        right. repeat split; auto. exists r. reflexivity.
      * rewrite (entry_replace_other _ _ _ _ Hne). now left.
    + intros H; inversion H; subst.
      destruct q as [|c' q]; [left; reflexivity|]. rewrite !obs_cons_Dir.
      destruct (string_dec c' c) as [->|Hne].
      * rewrite (entry_app_new _ _ _ E), E.
        destruct (fresh_dirs_obs p q) as [H1|[H1 [r ->]]]; [now left|].
        right. repeat split; auto. exists r. reflexivity.
      * rewrite (entry_app_other _ _ _ _ Hne). now left.
Qed.

Lemma obs_prefix fs p r : obs fs (p ++ r) <> None -> obs fs p <> None.
Proof.
  unfold obs. rewrite resolve_app. destruct (resolve fs p); congruence.
Qed.

Lemma obs_is_dir fs p : obs fs p = Some KDir <-> is_dir fs p = true.
Proof.
  unfold obs, is_dir. destruct (resolve fs p) as [e|[d|es]]; simpl; split;
    congruence.
Qed.

Lemma obs_exists fs p :
  obs fs p = None <-> (match resolve fs p with inr _ => true | inl _ => false end) = false.
Proof.
  unfold obs. destruct (resolve fs p); split; congruence.
Qed.

(** ** File names of the table *)

Lemma hooksOver_names names template :
  map fst (hooksOver names template) = names.
Proof.
  unfold hooksOver. rewrite map_map. simpl. apply map_id.
Qed.

(** The property names of both literals are pairwise distinct, whatever the
    template texts. *)
Lemma source_tables_NoDup template :
  NoDup (map fst (hooksOver hookNames4 template))
  /\ NoDup (map fst (hooksOver hookNames7 template)).
Proof.
  rewrite !hooksOver_names. split; apply nodupb_NoDup; reflexivity.
Qed.

Lemma length_append s t :
  String.length (s ++ t) = String.length s + String.length t.
Proof. induction s as [|a s IH]; simpl; [reflexivity|]. now rewrite IH. Qed.

Lemma append_inj_r t : forall s1 s2, (s1 ++ t = s2 ++ t)%string -> s1 = s2.
Proof.
  induction s1 as [|a s1 IH]; intros [|b s2] H; simpl in H.
  - reflexivity.
  - apply (f_equal String.length) in H. simpl in H. rewrite length_append in H. lia.
  - apply (f_equal String.length) in H. simpl in H. rewrite length_append in H. lia.
  - inversion H; subst. f_equal. now apply IH.
Qed.

Lemma hookFile_inj n1 n2 : hookFile n1 = hookFile n2 -> n1 = n2.
Proof. apply append_inj_r. Qed.

Lemma join_inj dir a b : join dir a = join dir b -> a = b.
Proof. unfold join. intros H. apply app_inv_head in H. now inversion H. Qed.

Lemma hookPaths_In hooksPath hooks n :
  In (join hooksPath (hookFile n)) (hookPaths hooksPath hooks) ->
  In n (map fst hooks).
Proof.
  unfold hookPaths. rewrite !in_map_iff. intros [[n' c] [E H]].
  simpl in E. apply join_inj, hookFile_inj in E. subst.
  exists (n, c). auto.
Qed.

Lemma hookPaths_NoDup hooksPath hooks :
  NoDup (map fst hooks) -> NoDup (hookPaths hooksPath hooks).
Proof.
  induction hooks as [|[n c] hooks IH]; simpl; intros H; [constructor|].
  inversion H; subst. constructor; [|now apply IH].
  intros Hin. apply hookPaths_In in Hin. contradiction.
Qed.

Lemma hookPaths_length hooksPath hooks :
  List.length (hookPaths hooksPath hooks) = List.length hooks.
Proof. apply length_map. Qed.

(** ** The write loop *)

Lemma forEachHook_cons hooksPath n c rest :
  forEachHook hooksPath ((n, c) :: rest) =
  bind (writeFileSync (join hooksPath (hookFile n)) c)
       (fun _ => forEachHook hooksPath rest).
Proof. reflexivity. Qed.

(** Whatever way the loop ends, it has attempted an initial part of the
    table in order, and touched no other path. *)
Lemma forEachHook_run hooksPath hooks : forall fs c fs' t,
  forEachHook hooksPath hooks fs = (c, fs', t) ->
  (forall q, ~ In q (hookPaths hooksPath hooks) -> obs fs' q = obs fs q)
  /\ (exists k, t = firstn k (hookWrites hooksPath hooks))
  /\ match c with
     | Normal _ => t = hookWrites hooksPath hooks
     | Throw (IOError _ _ p) => In p (hookPaths hooksPath hooks)
     | _ => False
     end.
Proof.
  induction hooks as [|[n d] rest IH]; intros fs c fs' t.
  - cbn. intros H; inversion H; subst. repeat split; auto. exists 0. reflexivity.
  - rewrite forEachHook_cons. unfold bind, writeFileSync.
    destruct (write fs (join hooksPath (hookFile n)) d) as [e|fs1] eqn:W.
    + intros H; inversion H; subst. repeat split; auto.
      * exists 1. reflexivity.
      * simpl. now left.
    + destruct (forEachHook hooksPath rest fs1) as [[c1 fs2] t1] eqn:R.
      intros H; inversion H; subst. clear H.
      destruct (IH _ _ _ _ R) as [Hf [[k Hk] Hc]]. repeat split.
      * intros q Hq. simpl in Hq. rewrite Hf by tauto.
        eapply write_frame; eauto.
      * exists (S k). simpl. now rewrite Hk.
      * destruct c as [u|[code sc p|m]| |]; auto.
        -- simpl. now rewrite Hc.
        -- simpl. now right.
Qed.

Lemma forEachHook_contents hooksPath hooks : forall fs fs' t,
  NoDup (map fst hooks) ->
  forEachHook hooksPath hooks fs = (Normal tt, fs', t) ->
  forall n d, In (n, d) hooks ->
    obs fs' (join hooksPath (hookFile n)) = Some (KFile d).
Proof.
  induction hooks as [|[n0 d0] rest IH]; intros fs fs' t Hnd Hrun n d Hin.
  - destruct Hin.
  - rewrite forEachHook_cons in Hrun. unfold bind, writeFileSync in Hrun.
    destruct (write fs (join hooksPath (hookFile n0)) d0) as [e|fs1] eqn:W;
      [discriminate|].
    destruct (forEachHook hooksPath rest fs1) as [[c1 fs2] t1] eqn:R.
    inversion Hrun; subst. clear Hrun. simpl in Hnd. inversion Hnd; subst.
    destruct Hin as [E|Hin].
    + inversion E; subst.
      destruct (forEachHook_run _ _ _ _ _ _ R) as [Hf _].
      rewrite Hf; [eapply write_resolve; eauto|].
      intros Hq. apply hookPaths_In in Hq. contradiction.
    + eapply IH; eauto.
Qed.

(** ** The stamping block *)

Lemma filter_hookWrites hooksPath hooks k :
  filter is_write (firstn k (hookWrites hooksPath hooks))
  = firstn k (hookWrites hooksPath hooks)
  /\ filter is_message (firstn k (hookWrites hooksPath hooks)) = [].
Proof.
  revert k. induction hooks as [|h hooks IH]; intros [|k]; simpl; auto.
  destruct (IH k) as [H1 H2]. rewrite H1, H2. auto.
Qed.

Lemma hooksPath_not_hookPath hooksPath hooks :
  ~ In hooksPath (hookPaths hooksPath hooks).
Proof.
  unfold hookPaths. rewrite in_map_iff. intros [h [E _]].
  apply (f_equal (@List.length string)) in E. unfold join in E.
  rewrite length_app in E. simpl in E. lia.
Qed.

Lemma prefix_of_join q r target name :
  join target name = q ++ r -> q = join target name \/ exists r', target = q ++ r'.
Proof.
  induction r as [|y r' _] using rev_ind; intros H.
  - left. now rewrite app_nil_r in H.
  - right. unfold join in H. rewrite app_assoc in H.
    apply app_inj_tail in H. exists r'. tauto.
Qed.

Lemma stampHooks_run target hooks fs c fs' t :
  is_dir fs target = true ->
  stampHooks target hooks fs = (c, fs', t) ->
  let hooksPath := join target "hooks" in
  let expected :=
    match obs fs hooksPath with Some _ => [] | None => [EvMkdir hooksPath] end
    ++ hookWrites hooksPath hooks in
  (forall q, q <> hooksPath -> ~ In q (hookPaths hooksPath hooks) ->
             obs fs' q = obs fs q)
  /\ (obs fs' hooksPath = obs fs hooksPath
      \/ (obs fs hooksPath = None /\ obs fs' hooksPath = Some KDir))
  /\ (exists k, filter is_write t = firstn k expected)
  /\ filter is_message t = []
  /\ match c with
     | Normal r =>
         r = hooksPath /\ filter is_write t = expected
         /\ (NoDup (map fst hooks) ->
             forall n d, In (n, d) hooks ->
               obs fs' (join hooksPath (hookFile n)) = Some (KFile d))
     | Throw (IOError _ _ _) => True
     | _ => False
     end.
Proof.
  intros Hd H hp expected. subst expected.
  unfold stampHooks in H. fold hp in H.
  unfold bind at 1 in H. unfold existsSync in H.
  destruct (resolve fs hp) as [e|n] eqn:R; cbn [negb] in H.
  - assert (H0 : obs fs hp = None) by (unfold obs; now rewrite R).
    rewrite H0. unfold bind at 1 in H. unfold mkdirSync in H.
    destruct (mkdirp fs hp) as [e'|fs1] eqn:Mk.
    + inversion H; subst. cbn.
      repeat split; auto. exists 1. reflexivity.
    + unfold bind in H.
      destruct (forEachHook hp hooks fs1) as [[c1 fs2] t1] eqn:F.
      destruct (forEachHook_run _ _ _ _ _ _ F) as [Hf [[k Hk] Hc]].
      assert (Hfr : forall q, q <> hp -> obs fs1 q = obs fs q).
      { intros q Hq. destruct (mkdirp_frame _ _ _ q Mk) as [E|[E1 [_ [r Hr]]]];
          [assumption|].
        apply prefix_of_join in Hr. destruct Hr as [Hr|[r' Hr]]; [elim Hq; exact Hr|].
        apply obs_is_dir in Hd. rewrite Hr in Hd.
        elim (obs_prefix fs q r'); congruence. }
      assert (Hhp : obs fs2 hp = Some KDir).
      { rewrite Hf by apply hooksPath_not_hookPath. eapply mkdirp_is_dir; eauto. }
      destruct (filter_hookWrites hp hooks k) as [Fw Fm].
      destruct c1 as [u|ex| |]; inversion H; subst; clear H; cbn [filter is_write is_message app];
        rewrite ?app_nil_r, ?Fw, ?Fm.
      * repeat split; auto.
        -- intros q Hq1 Hq2. rewrite Hf, Hfr; auto.
        -- exists (S k). reflexivity.
        -- cbn. now rewrite Hc.
        -- intros Hnd n d Hin. eapply forEachHook_contents; eauto.
           destruct u. exact F.
      * destruct ex as [code sc p|m]; [|contradiction]. repeat split; auto.
        -- intros q Hq1 Hq2. rewrite Hf, Hfr; auto.
        -- exists (S k). reflexivity.
      * contradiction.
      * contradiction.
  - assert (H0 : obs fs hp = Some (kind_of n)) by (unfold obs; now rewrite R).
    rewrite H0. unfold bind in H. cbn [ret] in H.
    destruct (forEachHook hp hooks fs) as [[c1 fs2] t1] eqn:F.
    destruct (forEachHook_run _ _ _ _ _ _ F) as [Hf [[k Hk] Hc]].
    destruct (filter_hookWrites hp hooks k) as [Fw Fm].
    assert (Hhp : obs fs2 hp = obs fs hp).
    { rewrite Hf by apply hooksPath_not_hookPath. reflexivity. }
    destruct c1 as [u|ex| |]; inversion H; subst; clear H; cbn [filter is_write is_message app];
      rewrite ?app_nil_r, ?Fw, ?Fm.
    + rewrite H0 in Hhp.
      split; [intros q _ Hq; now apply Hf|]. split; [now left|].
      split; [exists k; reflexivity|]. split; [reflexivity|].
      split; [reflexivity|]. split; [exact Hc|].
      intros Hnd n' d Hin. eapply forEachHook_contents; eauto.
      destruct u. exact F.
    + rewrite H0 in Hhp. destruct ex as [code sc p|m]; [|contradiction].
      split; [intros q _ Hq; now apply Hf|]. split; [now left|].
      split; [exists k; reflexivity|]. split; reflexivity.
    + contradiction.
    + contradiction.
Qed.

(** ** The entry points, case by case *)

Lemma resolver_result v start fs p fs' t :
  resolver v start fs = (Normal (Some p), fs', t) ->
  marker_below fs start p
  /\ match v with
     | CommandLineV2 =>
         p = start ++ ["src"] \/ p = start ++ ["src"; "app"] \/ p = start ++ ["app"]
     | _ => True
     end.
Proof.
  destruct v; simpl; intros H.
  - split; [|exact I]. eapply policyA_fuel_result. exact H.
  - split; [|exact I]. eapply policyA_fuel_result. exact H.
  - destruct (policyB_run fs start) as [t' [E _]]. rewrite E in H.
    inversion H; subst. now apply shallowChoice_below.
Qed.

Lemma entryPoint_run v hooks start fs :
  exists r tr,
    resolver v start fs = (r, fs, tr) /\ forallb is_read tr = true
    /\ match r with
       | Normal None =>
           entryPoint v hooks start fs
           = (notFoundCompletion v, fs, tr ++ [notFoundMessage v])
       | Normal (Some target) =>
           exists c fs' ts,
             stampHooks target hooks fs = (c, fs', ts)
             /\ entryPoint v hooks start fs
                = (match c with
                   | Normal _ => Normal tt
                   | Throw e => Throw e
                   | Exit code => Exit code
                   | OutOfFuel => OutOfFuel
                   end, fs',
                   tr ++ ts ++ match c with
                               | Normal hooksPath => [successMessage v hooksPath]
                               | _ => []
                               end)
       | Throw e => entryPoint v hooks start fs = (Throw e, fs, tr)
       | _ => False
       end.
Proof.
  pose proof (resolver_read_only v start fs) as Hro.
  pose proof (resolver_total v start fs) as Htot.
  destruct (resolver v start fs) as [[r fs1] tr] eqn:R.
  destruct Hro as [-> [Htr Hex]]. exists r, tr.
  split; [reflexivity|]. split; [assumption|].
  destruct r as [[target|]|e|code|].
  - destruct (stampHooks target hooks fs) as [[c fs'] ts] eqn:S.
    exists c, fs', ts. split; [reflexivity|].
    destruct v; simpl in R |- *;
      unfold Extension.createHooksFolder, CliV1.createHooksFolder,
        CliV2.createHooksFolder, bind; rewrite R, S;
      destruct c; cbn; rewrite ?app_nil_r; reflexivity.
  - destruct v; simpl in R |- *;
      unfold Extension.createHooksFolder, CliV1.createHooksFolder,
        CliV2.createHooksFolder, bind; rewrite R; reflexivity.
  - destruct v; simpl in R |- *;
      unfold Extension.createHooksFolder, CliV1.createHooksFolder,
        CliV2.createHooksFolder, bind; rewrite R; reflexivity.
  - elim (Hex code). reflexivity.
  - elim Htot. reflexivity.
Qed.

(** ** Policy A never throws below a directory *)

Lemma loop_normal self dir fs es l :
  resolve fs dir = inr (Dir es) ->
  incl l (map fst es) ->
  (forall name, In name l -> is_dir fs (join dir name) = true ->
     exists r t, self (join dir name) fs = (Normal r, fs, t)) ->
  exists r t, PolicyA.loop self dir l fs = (Normal r, fs, t).
Proof.
  intros Hdir. induction l as [|name rest IH]; intros Hincl Hself.
  - exists None, []. reflexivity.
  - destruct IH as [r' [t' IH]].
    { intros x Hx. apply Hincl. now right. }
    { intros n Hn. apply Hself. now right. }
    destruct (entry_names name es) as [c Hc]; [apply Hincl; now left|].
    assert (Hst : resolve fs (join dir name) = inr c).
    { rewrite (resolve_join _ _ _ _ Hdir), Hc. reflexivity. }
    rewrite loop_cons, (bind_Normal _ _ _ _ _ _ (statSync_run _ _ _ Hst)).
    destruct c as [d|es']; cbn [stats_of isDirectory].
    + rewrite IH. cbn. eauto.
    + destruct (is_marker name); [cbn; eauto|].
      destruct (Hself name (or_introl eq_refl)) as [r [t E]].
      { unfold is_dir. now rewrite Hst. }
      rewrite (bind_Normal _ _ _ _ _ _ E).
      destruct r as [p|]; [cbn; eauto|]. rewrite IH. cbn. eauto.
Qed.

Lemma policyA_fuel_normal f : forall fs dir es,
  resolve fs dir = inr (Dir es) -> height (Dir es) < f ->
  exists r t, PolicyA.findTargetDirectory_fuel f dir fs = (Normal r, fs, t).
Proof.
  induction f as [|f IH]; intros fs dir es Hdir Hh; [lia|].
  rewrite height_Dir in Hh. simpl. unfold bind at 1. unfold readdirSync. rewrite Hdir.
  destruct (loop_normal (PolicyA.findTargetDirectory_fuel f) dir fs es (map fst es) Hdir)
    as [r [t E]].
  - apply incl_refl.
  - intros name Hin Hd. apply is_dir_iff in Hd. destruct Hd as [es' Hd].
    apply (IH fs (join dir name) es' Hd).
    rewrite (resolve_join _ _ _ _ Hdir) in Hd.
    destruct (entry name es) as [c|] eqn:Ec; [|discriminate].
    inversion Hd; subst c. apply entry_In, heights_In in Ec. lia.
  - rewrite E. eauto.
Qed.

Lemma resolver_normal v start fs es :
  resolve fs start = inr (Dir es) ->
  exists r t, resolver v start fs = (Normal r, fs, t).
Proof.
  intros Hdir. pose proof (resolve_length _ _ _ Hdir) as Hl.
  destruct v; simpl.
  - apply (policyA_fuel_normal _ fs start es Hdir). lia.
  - apply (policyA_fuel_normal _ fs start es Hdir). lia.
  - destruct (policyB_run fs start) as [t [E _]]. eauto.
Qed.

(** ** The pre-order listing and path resolution *)

Lemma preorder_entries_In dir es q :
  In q (preorder_entries dir es) <->
  exists name es', In (name, Dir es') es
    /\ (q = join dir name \/ In q (preorder (join dir name) (Dir es'))).
Proof.
  induction es as [|[n c] es IH].
  - simpl. split; [tauto|]. intros [name [es' [[] _]]].
  - rewrite preorder_entries_cons, in_app_iff, IH. split.
    + intros [H|[name [es' [H1 H2]]]].
      * destruct c as [d|es']; [destruct H|].
        exists n, es'. split; [now left|]. destruct H; auto.
      * exists name, es'. split; [now right|assumption].
    + intros [name [es' [[E|H1] H2]]].
      * inversion E; subst. left. destruct H2; [left; auto|right; assumption].
      * right. eauto.
Qed.

Lemma preorder_complete suffix : forall n dir es',
  suffix <> [] -> resolve n suffix = inr (Dir es') ->
  In (dir ++ suffix) (preorder dir n).
Proof.
  induction suffix as [|c s IH]; intros n dir es' Hne H; [congruence|].
  simpl in H. destruct n as [d|es]; [discriminate|].
  destruct (entry c es) as [ch|] eqn:E; [|discriminate].
  apply entry_In in E. rewrite preorder_Dir. apply preorder_entries_In.
  destruct s as [|c' s].
  - simpl in H. inversion H; subst. exists c, es'. split; [assumption|now left].
  - destruct ch as [d|es'']; [discriminate|].
    exists c, es''. split; [assumption|]. right.
    replace (dir ++ c :: c' :: s) with (join dir c ++ c' :: s)
      by (unfold join; now rewrite <- app_assoc).
    eapply IH; [discriminate|eassumption].
Qed.

Lemma preorder_sound n : forall dir q,
  well_formed n = true -> In q (preorder dir n) ->
  exists suffix es', suffix <> [] /\ q = dir ++ suffix
                     /\ resolve n suffix = inr (Dir es').
Proof.
  induction n as [d|es IH] using node_induction; intros dir q Hwf Hin.
  - destruct Hin.
  - rewrite well_formed_Dir, andb_true_iff, nodupb_NoDup in Hwf.
    destruct Hwf as [Hnd Hwf]. rewrite preorder_Dir in Hin.
    apply preorder_entries_In in Hin. destruct Hin as [name [es' [Hin Hq]]].
    pose proof (entry_NoDup _ _ _ Hnd Hin) as He.
    destruct Hq as [->|Hq].
    + exists [name], es'. split; [discriminate|]. split; [reflexivity|].
      simpl. now rewrite He.
    + rewrite Forall_forall in IH. specialize (IH _ Hin). cbn [snd] in IH.
      destruct (IH (join dir name) q) as [s [es'' [Hs [-> Hr]]]]; auto.
      { eapply well_formed_entries_In; eassumption. }
      exists (name :: s), es''. split; [discriminate|].
      split; [unfold join; now rewrite <- app_assoc|]. simpl. now rewrite He.
Qed.

Lemma marker_below_listed fs start n p :
  resolve fs start = inr n -> marker_below fs start p ->
  In p (markerDirs start n).
Proof.
  intros Hs [suffix [Hne [-> [Hm Hd]]]]. unfold markerDirs.
  apply filter_In. split; [|exact Hm].
  apply is_dir_iff in Hd. destruct Hd as [es' Hd].
  rewrite resolve_app, Hs in Hd. eapply preorder_complete; eassumption.
Qed.

Lemma listed_is_dir fs start n p :
  resolve fs start = inr n -> well_formed n = true ->
  In p (markerDirs start n) -> marker_below fs start p.
Proof.
  intros Hs Hwf Hin. unfold markerDirs in Hin. apply filter_In in Hin.
  destruct Hin as [Hin Hm].
  destruct (preorder_sound n start p Hwf Hin) as [s [es' [Hne [-> Hr]]]].
  exists s. repeat split; auto.
  unfold is_dir. now rewrite resolve_app, Hs, Hr.
Qed.

Lemma find_filter {A} (f : A -> bool) l :
  find f l = hd_error (filter f l).
Proof.
  induction l as [|x l IH]; simpl; [reflexivity|].
  destruct (f x); [reflexivity|assumption].
Qed.

(** ** A single marker *)

Lemma is_child_join start name : is_child start (join start name) = true.
Proof.
  unfold is_child. rewrite basename_join.
  destruct (list_eq_dec string_dec (join start name) (join start name)); congruence.
Qed.

Lemma is_child_inv start p :
  is_child start p = true -> p = join start (basename p).
Proof.
  unfold is_child.
  destruct (list_eq_dec string_dec p (join start (basename p)));
    [auto|discriminate].
Qed.

Lemma marker_below_child fs start name :
  is_marker name = true -> is_dir fs (join start name) = true ->
  marker_below fs start (join start name).
Proof.
  intros Hm Hd. exists [name]. rewrite basename_join.
  repeat split; auto. discriminate.
Qed.

Lemma shallowChoice_single fs start es p :
  resolve fs start = inr (Dir es) ->
  well_formed (Dir es) = true ->
  markerDirs start (Dir es) = [p] ->
  shallowChoice fs start = if is_child start p then Some p else None.
Proof.
  intros Hdir Hwf Hm.
  assert (F1 : forall q, marker_below fs start q -> q = p).
  { intros q Hq. apply (marker_below_listed _ _ _ _ Hdir) in Hq.
    rewrite Hm in Hq. destruct Hq as [->|[]]. reflexivity. }
  assert (F2 : marker_below fs start p).
  { apply (listed_is_dir _ _ _ _ Hdir Hwf). rewrite Hm. now left. }
  destruct (shallowChoice fs start) as [q|] eqn:E.
  - destruct (shallowChoice_below _ _ _ E) as [Hq Hc].
    pose proof (F1 q Hq) as ->.
    assert (Hch : is_child start p = true); [|now rewrite Hch].
    destruct Hc as [->|[Hc| ->]].
    + apply (is_child_join start "src").
    + exfalso. unfold shallowChoice in E.
      destruct (is_dir fs (join start "src")) eqn:Es.
      * pose proof (F1 _ (marker_below_child fs start "src" eq_refl Es)) as E'.
        rewrite Hc in E'. unfold join in E'. apply app_inv_head in E'.
        discriminate.
      * destruct (is_dir fs (join start "app")); inversion E as [E'].
        rewrite Hc in E'. unfold join in E'. apply app_inv_head in E'.
        discriminate.
    + apply (is_child_join start "app").
  - destruct (is_child start p) eqn:Hch; [exfalso|reflexivity].
    apply is_child_inv in Hch.
    destruct F2 as [s [_ [_ [Hmk Hd]]]]. rewrite Hch in Hd.
    apply is_marker_iff in Hmk. unfold shallowChoice in E.
    destruct Hmk as [Hb|Hb]; rewrite Hb in Hd.
    + rewrite Hd in E. destruct (is_dir fs (join (join start "src") "app")); discriminate.
    + destruct (is_dir fs (join start "src")).
      * destruct (is_dir fs (join (join start "src") "app")); discriminate.
      * rewrite Hd in E. discriminate.
Qed.

(** ** Filtering traces *)

Lemma filter_reads t :
  forallb is_read t = true ->
  filter is_write t = [] /\ filter is_message t = []
  /\ filter is_file_write t = [].
Proof.
  induction t as [|e t IH]; simpl; [auto|].
  rewrite andb_true_iff. intros [He Ht]. destruct (IH Ht) as [H1 [H2 H3]].
  destruct e; simpl in *; try discriminate; auto.
Qed.

Lemma filter_file_write_of_writes t :
  filter is_file_write (filter is_write t) = filter is_file_write t.
Proof.
  induction t as [|e t IH]; simpl; [reflexivity|].
  destruct e; simpl; rewrite ?IH; reflexivity.
Qed.

Lemma filter_file_write_hookWrites hooksPath hooks :
  filter is_file_write (hookWrites hooksPath hooks) = hookWrites hooksPath hooks.
Proof.
  induction hooks as [|h hooks IH]; simpl; [reflexivity|]. now rewrite IH.
Qed.

Lemma filter_file_write_stampWrites fs hooksPath hooks :
  filter is_file_write (stampWrites fs hooksPath hooks)
  = hookWrites hooksPath hooks.
Proof.
  unfold stampWrites. rewrite filter_app, filter_file_write_hookWrites.
  destruct (obs fs hooksPath); reflexivity.
Qed.

Lemma successMessage_kind v hooksPath :
  is_write (successMessage v hooksPath) = false
  /\ is_file_write (successMessage v hooksPath) = false
  /\ is_message (successMessage v hooksPath) = true.
Proof. destruct v; auto. Qed.

Lemma notFoundMessage_kind v :
  is_write (notFoundMessage v) = false
  /\ is_file_write (notFoundMessage v) = false
  /\ is_message (notFoundMessage v) = true.
Proof. destruct v; auto. Qed.

Lemma hookWrites_explicit target hooks :
  hookWrites (join target "hooks") hooks
  = map (fun h => EvWriteFile (target ++ ["hooks"; hookFile (fst h)]) (snd h)) hooks.
Proof.
  unfold hookWrites. apply map_ext. intros h. now rewrite join_join.
Qed.

Lemma hookPaths_explicit target hooks :
  hookPaths (join target "hooks") hooks
  = map (fun h => target ++ ["hooks"; hookFile (fst h)]) hooks.
Proof.
  unfold hookPaths. apply map_ext. intros h. now rewrite join_join.
Qed.

(** What a run that found a target consists of. *)
Lemma entryPoint_found v hooks start fs target tr :
  resolver v start fs = (Normal (Some target), fs, tr) ->
  forallb is_read tr = true
  /\ is_dir fs target = true
  /\ exists c fs' ts,
       stampHooks target hooks fs = (c, fs', ts)
       /\ entryPoint v hooks start fs
          = (match c with
             | Normal _ => Normal tt
             | Throw e => Throw e
             | Exit code => Exit code
             | OutOfFuel => OutOfFuel
             end, fs',
             tr ++ ts ++ match c with
                         | Normal hooksPath => [successMessage v hooksPath]
                         | _ => []
                         end).
Proof.
  intros R. destruct (entryPoint_run v hooks start fs) as [r [tr0 [R0 [Htr H]]]].
  rewrite R in R0. inversion R0; subst r tr0. split; [assumption|].
  split; [|assumption].
  destruct (resolver_result _ _ _ _ _ _ R) as [[s [_ [_ [_ Hd]]]] _]. exact Hd.
Qed.

(** * Worked scenarios *)

(** On [/proj] the two policies disagree: the recursive search stops at the
    first marker it meets, the shallow lookup prefers the nested [src/app]. *)
Example proj_policyA :
  outcome (CliV1.findTargetDirectory ["proj"] projFs)
  = Normal (Some ["proj"; "src"]).
Proof. reflexivity. Qed.

Example proj_policyB :
  outcome (CliV2.findTargetDirectory ["proj"] projFs)
  = Normal (Some ["proj"; "src"; "app"]).
Proof. reflexivity. Qed.

(** The pre-order listing of [/proj]. *)
Example proj_preorder :
  preorder ["proj"] (Dir projEntries)
  = [["proj"; "src"]; ["proj"; "src"; "components"]; ["proj"; "src"; "app"]].
Proof. reflexivity. Qed.

(** The marker test is case-sensitive: [/empty/lib/Src] is searched, not
    returned. *)
Example empty_policyA :
  CliV1.findTargetDirectory ["empty"] emptyFs
  = (Normal None, emptyFs,
     [EvReaddir ["empty"]; EvStat ["empty"; "README.md"];
      EvStat ["empty"; "lib"]; EvReaddir ["empty"; "lib"];
      EvStat ["empty"; "lib"; "Src"]; EvReaddir ["empty"; "lib"; "Src"]]).
Proof. reflexivity. Qed.

(** Stamping over an older [hooks] folder: the stale template is replaced in
    place, the user's own file stays, the new files follow. *)
Example site_stamped :
  final (CliV2.createHooksFolder sampleHooks4 ["site"] siteFs)
  = Dir [("site",
          Dir [("app",
                Dir [("hooks",
                      Dir [("useFetch.ts", File (sampleTemplate "useFetch"));
                           ("useAuth.ts", File "mine");
                           ("useDebounce.ts", File (sampleTemplate "useDebounce"));
                           ("useThrottle.ts", File (sampleTemplate "useThrottle"));
                           ("useLocalStorage.ts",
                            File (sampleTemplate "useLocalStorage"))])])])].
Proof. reflexivity. Qed.

(** Started on a path that is not a directory, the recursive search throws. *)
Example policyA_on_file :
  CliV1.findTargetDirectory ["proj"; "package.json"] projFs
  = (Throw (IOError ENOTDIR "scandir" ["proj"; "package.json"]), projFs,
     [EvReaddir ["proj"; "package.json"]]).
Proof. reflexivity. Qed.

(** * The claims *)

(** C1. Policy B, the shallow [findTargetDirectory] of the newest
    command-line tool, follows the three checks in their fixed order, for
    every tree and every starting directory: when [dir/src] exists and is a
    directory it returns [dir/src/app] if that exists and is a directory and
    [dir/src] otherwise; else when [dir/app] exists and is a directory it
    returns [dir/app]; else it returns null.  Nested [src/app] beats bare
    [src], and the [src] family beats a sibling [app].  The function never
    throws, leaves the tree as it is and only reads. *)
Theorem policyB_three_checks (fs : node) (dir : path) :
  exists t,
    CliV2.findTargetDirectory dir fs
    = (Normal
         (if is_dir fs (dir ++ ["src"]) then
            if is_dir fs (dir ++ ["src"; "app"])
            then Some (dir ++ ["src"; "app"])
            else Some (dir ++ ["src"])
          else if is_dir fs (dir ++ ["app"]) then Some (dir ++ ["app"])
          else None),
       fs, t)
    /\ forallb is_read t = true.
Proof.
  destruct (policyB_run fs dir) as [t [E Ht]]. exists t. split; [|exact Ht].
  rewrite E. unfold shallowChoice. rewrite join_join. reflexivity.
Qed.

(** C2, as stated, fails for Policy B: [/mono] holds exactly one folder
    named [src] or [app], at [/mono/packages/web/src], and the shallow lookup
    started on [/mono] returns null. *)
Lemma policyB_misses_deep_marker :
  resolve monoFs ["mono"] = inr (Dir monoEntries)
  /\ well_formed (Dir monoEntries) = true
  /\ markerDirs ["mono"] (Dir monoEntries) = [["mono"; "packages"; "web"; "src"]]
  /\ CliV2.findTargetDirectory ["mono"] monoFs
     = (Normal None, monoFs, [EvExists ["mono"; "src"]; EvExists ["mono"; "app"]])
  /\ ~ finds_single_marker CliV2.findTargetDirectory.
Proof.
  repeat split; try reflexivity.
  intros H.
  specialize (H monoFs ["mono"] monoEntries ["mono"; "packages"; "web"; "src"]
                eq_refl eq_refl eq_refl).
  vm_compute in H. discriminate.
Qed.

(** C2, amended.  On every well-formed tree holding exactly one folder named
    [src] or [app] below the starting directory, at any depth, Policy A (the
    first command-line tool and the extension) returns that folder's path;
    Policy B returns it when the folder is an immediate child of the starting
    directory, and null otherwise. *)
Theorem single_marker_resolution (fs : node) (start : path)
    (es : list (string * node)) (p : path) :
  resolve fs start = inr (Dir es) ->
  well_formed (Dir es) = true ->
  markerDirs start (Dir es) = [p] ->
  outcome (CliV1.findTargetDirectory start fs) = Normal (Some p)
  /\ outcome (Extension.findHooksDirectory start fs) = Normal (Some p)
  /\ outcome (CliV2.findTargetDirectory start fs)
     = Normal (if is_child start p then Some p else None).
Proof.
  intros Hdir Hwf Hm.
  assert (HA : outcome (PolicyA.findTargetDirectory start fs) = Normal (Some p)).
  { destruct (policyA_correct fs start es Hdir Hwf) as [t [E _]]. rewrite E.
    unfold outcome, firstMarker. cbn [fst]. rewrite find_filter.
    unfold markerDirs in Hm. now rewrite Hm. }
  split; [exact HA|]. split; [exact HA|].
  - destruct (policyB_run fs start) as [t [E _]]. rewrite E.
    unfold outcome. cbn [fst].
    now rewrite (shallowChoice_single fs start es p Hdir Hwf Hm).
Qed.

(** The single marker of [/mono], three levels down. *)
Lemma single_marker_resolution_witness :
  resolve monoFs ["mono"] = inr (Dir monoEntries)
  /\ well_formed (Dir monoEntries) = true
  /\ markerDirs ["mono"] (Dir monoEntries) = [["mono"; "packages"; "web"; "src"]]
  /\ outcome (CliV1.findTargetDirectory ["mono"] monoFs)
     = Normal (Some ["mono"; "packages"; "web"; "src"])
  /\ outcome (Extension.findHooksDirectory ["mono"] monoFs)
     = Normal (Some ["mono"; "packages"; "web"; "src"])
  /\ outcome (CliV2.findTargetDirectory ["mono"] monoFs)
     = Normal (if is_child ["mono"] ["mono"; "packages"; "web"; "src"]
               then Some ["mono"; "packages"; "web"; "src"] else None).
Proof.
  split; [reflexivity|]. split; [reflexivity|]. split; [reflexivity|].
  apply (single_marker_resolution monoFs ["mono"] monoEntries
           ["mono"; "packages"; "web"; "src"]); reflexivity.
Defined.

(** C3. Policy A is a pre-order depth-first search: started on a directory
    of a well-formed tree, the recursive search, [findTargetDirectory] of the
    first command-line tool and [findHooksDirectory] of the extension alike,
    returns the first path, in the pre-order listing of the directories below
    the start (every directory before its own subtree, every subtree before
    the remaining siblings, siblings in enumeration order), whose last
    component is exactly [src] or [app]; it returns null when the listing
    holds no such path.  It leaves the tree as it is and only reads. *)
Theorem policyA_preorder_first (fs : node) (dir : path)
    (es : list (string * node)) :
  resolve fs dir = inr (Dir es) ->
  well_formed (Dir es) = true ->
  exists t,
    CliV1.findTargetDirectory dir fs
    = (Normal (find is_marker_path (preorder dir (Dir es))), fs, t)
    /\ Extension.findHooksDirectory dir fs
       = (Normal (find is_marker_path (preorder dir (Dir es))), fs, t)
    /\ forallb is_read t = true.
Proof.
  intros Hdir Hwf. destruct (policyA_correct fs dir es Hdir Hwf) as [t [E Ht]].
  exists t. repeat split; assumption.
Qed.

(** The search on [/proj]. *)
Lemma policyA_preorder_first_witness :
  resolve projFs ["proj"] = inr (Dir projEntries)
  /\ well_formed (Dir projEntries) = true
  /\ exists t,
       CliV1.findTargetDirectory ["proj"] projFs
       = (Normal (find is_marker_path (preorder ["proj"] (Dir projEntries))),
          projFs, t)
       /\ Extension.findHooksDirectory ["proj"] projFs
          = (Normal (find is_marker_path (preorder ["proj"] (Dir projEntries))),
             projFs, t)
       /\ forallb is_read t = true.
Proof.
  split; [reflexivity|]. split; [reflexivity|].
  apply (policyA_preorder_first projFs ["proj"] projEntries); reflexivity.
Defined.

(** C4. On every tree whose starting directory holds no folder named [src]
    or [app] at any depth, resolution returns null, the run changes nothing
    in the tree and issues no write call, and each entry point reports it:
    the command-line tools print one line to standard error and exit with
    status 1, the extension shows one error message and returns. *)
Theorem no_marker_not_found (v : variant) (hooks : table) (start : path)
    (fs : node) (es : list (string * node)) :
  resolve fs start = inr (Dir es) ->
  markerDirs start (Dir es) = [] ->
  exists tr,
    resolver v start fs = (Normal None, fs, tr)
    /\ final (entryPoint v hooks start fs) = fs
    /\ filter is_write (trace (entryPoint v hooks start fs)) = []
    /\ match v with
       | EditorExtension _ =>
           entryPoint v hooks start fs
           = (Normal tt, fs,
              tr ++ [EvShowErrorMessage
                       "No src or app folder found in the workspace."])
       | CommandLineV1 =>
           entryPoint v hooks start fs
           = (Exit 1, fs,
              tr ++ [EvConsoleError
                       "No src or app folder found in the current directory or its subdirectories."])
       | CommandLineV2 =>
           entryPoint v hooks start fs
           = (Exit 1, fs,
              tr ++ [EvConsoleError
                       "No src, src/app, or app folder found in the current directory."])
       end.
Proof.
  intros Hdir Hm.
  destruct (entryPoint_run v hooks start fs) as [r [tr [R [Htr H]]]].
  destruct (resolver_normal v start fs es Hdir) as [r' [t' R']].
  rewrite R in R'. inversion R'; subst r t'. clear R'.
  destruct r' as [p|].
  - destruct (resolver_result _ _ _ _ _ _ R) as [Hb _].
    apply (marker_below_listed _ _ _ _ Hdir) in Hb. rewrite Hm in Hb. destruct Hb.
  - exists tr. split; [exact R|]. rewrite H. unfold final, trace. cbn [fst snd].
    split; [reflexivity|]. split.
    + rewrite filter_app. destruct (filter_reads tr Htr) as [-> _].
      destruct v; reflexivity.
    + destruct v; reflexivity.
Qed.

(** The run of the newest command-line tool on [/empty]. *)
Lemma no_marker_not_found_witness :
  resolve emptyFs ["empty"] = inr (Dir emptyEntries)
  /\ markerDirs ["empty"] (Dir emptyEntries) = []
  /\ exists tr,
       resolver CommandLineV2 ["empty"] emptyFs = (Normal None, emptyFs, tr)
       /\ final (entryPoint CommandLineV2 sampleHooks ["empty"] emptyFs) = emptyFs
       /\ filter is_write
            (trace (entryPoint CommandLineV2 sampleHooks ["empty"] emptyFs)) = []
       /\ entryPoint CommandLineV2 sampleHooks ["empty"] emptyFs
          = (Exit 1, emptyFs,
             tr ++ [EvConsoleError
                      "No src, src/app, or app folder found in the current directory."]).
Proof.
  split; [reflexivity|]. split; [reflexivity|].
  apply (no_marker_not_found CommandLineV2 sampleHooks ["empty"] emptyFs
           emptyEntries); reflexivity.
Defined.

(** C5. For every resolved target and every hook table, a run that completes
    has written exactly one file per table entry, in table order, to
    [target/hooks/<hookName>.ts]; these paths are pairwise distinct, so
    there are as many files as entries; and afterwards each of them is a file
    whose content is the table's text for that hook. *)
Theorem stamp_writes_table (v : variant) (hooks : table) (start : path)
    (fs : node) (target : path) (tr : list event) (fs' : node)
    (t : list event) :
  NoDup (map fst hooks) ->
  resolver v start fs = (Normal (Some target), fs, tr) ->
  entryPoint v hooks start fs = (Normal tt, fs', t) ->
  filter is_file_write t
  = map (fun h => EvWriteFile (target ++ ["hooks"; hookFile (fst h)]) (snd h))
        hooks
  /\ List.length (filter is_file_write t) = List.length hooks
  /\ NoDup (map (fun h => target ++ ["hooks"; hookFile (fst h)]) hooks)
  /\ forall name content,
       In (name, content) hooks ->
       obs fs' (target ++ ["hooks"; hookFile name]) = Some (KFile content).
Proof.
  intros Hnd R E.
  destruct (entryPoint_found v hooks start fs target tr R)
    as [Htr [Hd [c [fs1 [ts [S E']]]]]].
  rewrite E in E'. clear E.
  pose proof (stampHooks_run target hooks fs c fs1 ts Hd S) as Hs.
  cbv zeta in Hs. destruct Hs as [_ [_ [_ [_ Hc]]]].
  destruct c as [hp|e|code|]; try discriminate.
  destruct Hc as [-> [Hw Hcont]]. inversion E'; subst fs1 t. clear E'.
  assert (Hfw : filter is_file_write (tr ++ ts ++ [successMessage v (join target "hooks")])
                = hookWrites (join target "hooks") hooks).
  { rewrite !filter_app. destruct (filter_reads tr Htr) as [_ [_ ->]].
    rewrite <- (filter_file_write_of_writes ts), Hw.
    fold (stampWrites fs (join target "hooks") hooks).
    rewrite filter_file_write_stampWrites.
    cbn [filter]. destruct (successMessage_kind v (join target "hooks")) as [_ [-> _]].
    now rewrite app_nil_r. }
  rewrite Hfw, <- hookWrites_explicit, <- hookPaths_explicit.
  split; [reflexivity|]. split; [apply length_map|].
  split; [now apply hookPaths_NoDup|].
  intros name content Hin. rewrite <- join_join. now apply Hcont.
Qed.

(** The run of the newest command-line tool on [/proj]. *)
Lemma stamp_writes_table_witness :
  NoDup (map fst sampleHooks)
  /\ resolver CommandLineV2 ["proj"] projFs
     = (Normal (Some ["proj"; "src"; "app"]), projFs,
        [EvExists ["proj"; "src"]; EvStat ["proj"; "src"];
         EvExists ["proj"; "src"; "app"]; EvStat ["proj"; "src"; "app"]])
  /\ outcome (entryPoint CommandLineV2 sampleHooks ["proj"] projFs) = Normal tt
  /\ obs (final (entryPoint CommandLineV2 sampleHooks ["proj"] projFs))
         ["proj"; "src"; "app"; "hooks"; "useDebounce.ts"]
     = Some (KFile (sampleTemplate "useDebounce")).
Proof.
  assert (Hnd : NoDup (map fst sampleHooks))
    by (apply (source_tables_NoDup sampleTemplate)).
  split; [exact Hnd|]. split; [reflexivity|]. split; [reflexivity|].
  destruct (entryPoint CommandLineV2 sampleHooks ["proj"] projFs)
    as [[c fs'] t] eqn:E.
  assert (Hc : c = Normal tt) by (vm_compute in E; congruence).
  subst c.
  destruct (stamp_writes_table CommandLineV2 sampleHooks ["proj"] projFs
              ["proj"; "src"; "app"] _ fs' t Hnd eq_refl E) as [_ [_ [_ H]]].
  apply (H "useDebounce" (sampleTemplate "useDebounce")). now left.
Defined.

(** C6. Once a target is resolved, whatever way the run ends, its effects on
    the tree are confined to [target/hooks] and the files of the table:
    every other path names afterwards what it named before, in particular a
    file inside [target/hooks] whose name is not a table entry's;
    [target/hooks] itself is either as before or newly a directory; the
    write calls issued are an initial part of: the creation of [target/hooks]
    when it did not exist, then one file write per table entry; and all of
    them when the run completes. *)
Theorem stamp_frame (v : variant) (hooks : table) (start : path) (fs : node)
    (target : path) (tr : list event) (c : completion unit) (fs' : node)
    (t : list event) :
  resolver v start fs = (Normal (Some target), fs, tr) ->
  entryPoint v hooks start fs = (c, fs', t) ->
  (forall q, q <> target ++ ["hooks"] ->
             ~ In q (map (fun h => target ++ ["hooks"; hookFile (fst h)]) hooks) ->
             obs fs' q = obs fs q)
  /\ (forall name, ~ In name (map (fun h => hookFile (fst h)) hooks) ->
                   obs fs' (target ++ ["hooks"; name])
                   = obs fs (target ++ ["hooks"; name]))
  /\ (obs fs' (target ++ ["hooks"]) = obs fs (target ++ ["hooks"])
      \/ (obs fs (target ++ ["hooks"]) = None
          /\ obs fs' (target ++ ["hooks"]) = Some KDir))
  /\ (exists k,
        filter is_write t = firstn k (stampWrites fs (target ++ ["hooks"]) hooks))
  /\ match c with
     | Normal _ => filter is_write t = stampWrites fs (target ++ ["hooks"]) hooks
     | _ => True
     end.
Proof.
  intros R E.
  destruct (entryPoint_found v hooks start fs target tr R)
    as [Htr [Hd [c1 [fs1 [ts [S E']]]]]].
  rewrite E in E'. inversion E' as [[Ec Efs Et]]. clear E E'.
  pose proof (stampHooks_run target hooks fs c1 fs1 ts Hd S) as Hs.
  cbv zeta in Hs. fold (join target "hooks").
  fold (stampWrites fs (join target "hooks") hooks) in Hs.
  destruct Hs as [Hf [Hhp [[k Hk] [_ Hc]]]].
  assert (Hfw : filter is_write
                  (tr ++ ts ++ match c1 with
                               | Normal hooksPath => [successMessage v hooksPath]
                               | _ => []
                               end)
                = filter is_write ts).
  { rewrite !filter_app. destruct (filter_reads tr Htr) as [-> _].
    destruct c1 as [hp| | |]; cbn [filter app]; rewrite ?app_nil_r; auto.
    destruct (successMessage_kind v hp) as [-> _]. now rewrite app_nil_r. }
  rewrite Hfw. assert (Hfr : forall q, q <> join target "hooks" ->
      ~ In q (map (fun h => target ++ ["hooks"; hookFile (fst h)]) hooks) ->
      obs fs1 q = obs fs q).
  { intros q H1 H2. apply Hf; [assumption|]. now rewrite hookPaths_explicit. }
  split; [exact Hfr|]. split.
  - intros name Hn. apply Hfr.
    + intros Heq. apply (f_equal (@List.length string)) in Heq.
      unfold join in Heq. rewrite !length_app in Heq. simpl in Heq. lia.
    + rewrite in_map_iff. intros [h [Heq Hin]]. apply Hn.
      apply app_inv_head in Heq. inversion Heq. apply in_map_iff. eauto.
  - split; [exact Hhp|]. split; [exists k; exact Hk|].
    destruct c1 as [hp| | |]; try exact I. tauto.
Qed.

(** The user's own file in [/site/app/hooks] is left as it was. *)
Lemma stamp_frame_witness :
  resolver CommandLineV2 ["site"] siteFs
  = (Normal (Some ["site"; "app"]), siteFs,
     [EvExists ["site"; "src"]; EvExists ["site"; "app"];
      EvStat ["site"; "app"]])
  /\ obs (final (entryPoint CommandLineV2 sampleHooks ["site"] siteFs))
         ["site"; "app"; "hooks"; "useAuth.ts"]
     = obs siteFs ["site"; "app"; "hooks"; "useAuth.ts"].
Proof.
  split; [reflexivity|].
  destruct (entryPoint CommandLineV2 sampleHooks ["site"] siteFs)
    as [[c fs'] t] eqn:E.
  destruct (stamp_frame CommandLineV2 sampleHooks ["site"] siteFs
              ["site"; "app"] _ c fs' t eq_refl E) as [_ [H _]].
  apply (H "useAuth.ts"). vm_compute. intuition discriminate.
Defined.



(** C8.  The guard of the extension covers [undefined] only.  With no
    workspace at all the function shows [No workspace is open.] and makes no
    filesystem call; with a workspace that has an empty folder list it reads
    [.uri] of a missing element, so the promise is rejected with a
    [TypeError] and no message is shown (still without any filesystem
    call). *)
Theorem workspace_guard (hooks : table) (fs : node) :
  Extension.createHooksFolder hooks None fs
  = (Normal tt, fs, [EvShowErrorMessage "No workspace is open."])
  /\ Extension.createHooksFolder hooks (Some []) fs
     = (Throw (TypeError "Cannot read properties of undefined"), fs, []).
Proof. split; reflexivity. Qed.

(** C9. Policy A terminates on every tree: from some bound on, the number of
    nested calls allowed no longer matters, the search ends in a result or
    in a thrown error, never by running out of calls; the search of the first
    command-line tool and of the extension is the search run with such a
    bound. *)
Theorem policyA_terminates (fs : node) (dir : path) :
  exists n,
    (forall m, n <= m ->
       PolicyA.findTargetDirectory_fuel m dir fs
       = PolicyA.findTargetDirectory_fuel n dir fs)
    /\ outcome (PolicyA.findTargetDirectory_fuel n dir fs) <> OutOfFuel
    /\ CliV1.findTargetDirectory dir fs
       = PolicyA.findTargetDirectory_fuel n dir fs
    /\ Extension.findHooksDirectory dir fs
       = PolicyA.findTargetDirectory_fuel n dir fs.
Proof.
  exists (S (height fs)). split; [|split; [|split]].
  - intros m Hm. apply (fuel_stable_any fs dir m (S (height fs))); lia.
  - apply (fuel_stable_any fs dir (S (height fs)) (S (height fs))); lia.
  - reflexivity.
  - reflexivity.
Qed.

(** C10. Under both policies a resolved target is a strict descendant of the
    starting directory whose last component is [src] or [app], and it is a
    directory; the starting directory itself is never returned, whatever its
    own name.  Under Policy B the target is one of [start/src],
    [start/src/app], [start/app]. *)
Theorem resolved_target_below_start (v : variant) (start : path) (fs : node)
    (p : path) (fs' : node) (t : list event) :
  resolver v start fs = (Normal (Some p), fs', t) ->
  (exists suffix, suffix <> [] /\ p = start ++ suffix)
  /\ p <> start
  /\ (basename p = "src" \/ basename p = "app")
  /\ is_dir fs p = true
  /\ match v with
     | CommandLineV2 =>
         p = start ++ ["src"] \/ p = start ++ ["src"; "app"]
         \/ p = start ++ ["app"]
     | _ => True
     end.
Proof.
  intros H. destruct (resolver_result _ _ _ _ _ _ H) as [[s [Hne [-> [Hm Hd]]]] Hv].
  split; [exists s; auto|]. split.
  - intros E. rewrite <- (app_nil_r start) in E at 2.
    apply app_inv_head in E. contradiction.
  - split; [now apply is_marker_iff|]. split; assumption.
Qed.

(** A starting directory that is itself named [src]: the result lies below it. *)
Lemma resolved_target_below_start_witness :
  resolver CommandLineV1 ["src"] nestedFs
  = (Normal (Some ["src"; "lib"; "app"]), nestedFs,
     [EvReaddir ["src"]; EvStat ["src"; "lib"]; EvReaddir ["src"; "lib"];
      EvStat ["src"; "lib"; "app"]])
  /\ ["src"; "lib"; "app"] <> ["src"]
  /\ is_dir nestedFs ["src"; "lib"; "app"] = true.
Proof.
  split; [reflexivity|].
  destruct (resolved_target_below_start CommandLineV1 ["src"] nestedFs
              ["src"; "lib"; "app"] nestedFs
              [EvReaddir ["src"]; EvStat ["src"; "lib"]; EvReaddir ["src"; "lib"];
               EvStat ["src"; "lib"; "app"]] eq_refl)
    as [_ [Hne [_ [Hd _]]]].
  split; assumption.
Defined.

(** * Further properties *)

(** ** Changes below a directory *)

Lemma map_fst_replace c ch es : map fst (replace c ch es) = map fst es.
Proof.
  induction es as [|[n x] es IH]; simpl; [reflexivity|].
  destruct (String.eqb c n); simpl; [reflexivity|now rewrite IH].
Qed.

Lemma is_prefix_cons a t q : is_prefix (a :: t) (a :: q) <-> is_prefix t q.
Proof.
  split; intros [r H]; exists r; simpl in *; congruence.
Qed.

Lemma is_prefix_cons_ne a c t q : c <> a -> ~ is_prefix (a :: t) (c :: q).
Proof. intros Hne [r H]. simpl in H. congruence. Qed.

Lemma look_nil_Dir es : look (Dir es) [] = inr (Some (map fst es)).
Proof. reflexivity. Qed.

Lemma look_cons_Dir es c q :
  look (Dir es) (c :: q) =
  match entry c es with Some ch => look ch q | None => inl ENOENT end.
Proof. unfold look. simpl. destruct (entry c es); reflexivity. Qed.

Lemma is_dir_cons es c q :
  is_dir (Dir es) (c :: q) =
  match entry c es with Some ch => is_dir ch q | None => false end.
Proof. unfold is_dir. simpl. destruct (entry c es); reflexivity. Qed.

(** A write below an existing directory [t] is invisible outside [t]. *)
Lemma write_look_outside t : forall n n' r d q,
  is_dir n t = true -> write n (t ++ r) d = inr n' ->
  ~ is_prefix t q -> look n' q = look n q.
Proof.
  induction t as [|a t IH]; intros n n' r d q Hd W Hq.
  - elim Hq. exists q. reflexivity.
  - destruct n as [d0|es]; [discriminate|].
    rewrite is_dir_cons in Hd. simpl in W.
    destruct (entry a es) as [ch|] eqn:E; [|discriminate].
    destruct (write ch (t ++ r) d) as [e|ch'] eqn:W'; [discriminate|].
    inversion W; subst n'. clear W.
    destruct q as [|c q].
    + rewrite !look_nil_Dir, map_fst_replace. reflexivity.
    + rewrite !look_cons_Dir. destruct (string_dec c a) as [->|Hne].
      * rewrite (entry_replace_same _ _ _ _ E), E.
        eapply IH; eauto. now rewrite is_prefix_cons in Hq.
      * now rewrite (entry_replace_other _ _ _ _ Hne).
Qed.

Lemma mkdirp_look_outside t : forall n n' r q,
  is_dir n t = true -> mkdirp n (t ++ r) = inr n' ->
  ~ is_prefix t q -> look n' q = look n q.
Proof.
  induction t as [|a t IH]; intros n n' r q Hd W Hq.
  - elim Hq. exists q. reflexivity.
  - destruct n as [d0|es]; [discriminate|].
    rewrite is_dir_cons in Hd. simpl in W.
    destruct (entry a es) as [ch|] eqn:E; [|discriminate].
    destruct (mkdirp ch (t ++ r)) as [e|ch'] eqn:W'; [discriminate|].
    inversion W; subst n'. clear W.
    destruct q as [|c q].
    + rewrite !look_nil_Dir, map_fst_replace. reflexivity.
    + rewrite !look_cons_Dir. destruct (string_dec c a) as [->|Hne].
      * rewrite (entry_replace_same _ _ _ _ E), E.
        eapply IH; eauto. now rewrite is_prefix_cons in Hq.
      * now rewrite (entry_replace_other _ _ _ _ Hne).
Qed.

Lemma join_ne_self target name : target <> join target name.
Proof.
  intros H. apply (f_equal (@List.length string)) in H.
  unfold join in H. rewrite length_app in H. simpl in H. lia.
Qed.

Lemma target_not_hookPath target hooks :
  ~ In target (hookPaths (join target "hooks") hooks).
Proof.
  unfold hookPaths. rewrite in_map_iff. intros [h [E _]].
  apply (f_equal (@List.length string)) in E. unfold join in E.
  rewrite !length_app in E. simpl in E. lia.
Qed.

Lemma stampHooks_keeps_target target hooks fs c fs' t :
  is_dir fs target = true ->
  stampHooks target hooks fs = (c, fs', t) ->
  is_dir fs' target = true.
Proof.
  intros Hd S. pose proof (stampHooks_run target hooks fs c fs' t Hd S) as Hs.
  cbv zeta in Hs. destruct Hs as [Hf _].
  apply obs_is_dir. rewrite Hf.
  - now apply obs_is_dir.
  - apply join_ne_self.
  - apply target_not_hookPath.
Qed.

Lemma forEachHook_look target hooks : forall fs c fs' t,
  is_dir fs target = true ->
  forEachHook (join target "hooks") hooks fs = (c, fs', t) ->
  forall q, ~ is_prefix target q -> look fs' q = look fs q.
Proof.
  induction hooks as [|[n d] rest IH]; intros fs c fs' t Hd.
  - cbn. intros H; inversion H; subst. reflexivity.
  - rewrite forEachHook_cons. unfold bind, writeFileSync.
    destruct (write fs (join (join target "hooks") (hookFile n)) d) as [e|fs1] eqn:W.
    + intros H; inversion H; subst. reflexivity.
    + destruct (forEachHook (join target "hooks") rest fs1) as [[c1 fs2] t1] eqn:R.
      intros H q Hq; inversion H; subst. clear H.
      assert (Hd1 : is_dir fs1 target = true).
      { apply obs_is_dir. rewrite (write_frame _ _ _ _ _ W).
        - now apply obs_is_dir.
        - intros E. apply (f_equal (@List.length string)) in E. unfold join in E.
          rewrite !length_app in E. simpl in E. lia. }
      rewrite (IH _ _ _ _ Hd1 R q Hq).
      rewrite join_join in W.
      eapply write_look_outside; eauto.
Qed.

(** Stamping is invisible outside the target. *)
Lemma stampHooks_look target hooks fs c fs' t :
  is_dir fs target = true ->
  stampHooks target hooks fs = (c, fs', t) ->
  forall q, ~ is_prefix target q -> look fs' q = look fs q.
Proof.
  intros Hd S q Hq. unfold stampHooks in S.
  unfold bind at 1 in S. unfold existsSync in S.
  destruct (resolve fs (join target "hooks")) as [e|n] eqn:R; cbn [negb] in S.
  - unfold bind at 1 in S. unfold mkdirSync in S.
    destruct (mkdirp fs (join target "hooks")) as [e'|fs1] eqn:Mk.
    + inversion S; subst. reflexivity.
    + unfold bind in S.
      destruct (forEachHook (join target "hooks") hooks fs1) as [[c1 fs2] t1] eqn:F.
      assert (Hd1 : is_dir fs1 target = true).
      { apply obs_is_dir.
        destruct (mkdirp_frame _ _ _ target Mk) as [E|[E _]].
        - rewrite E. now apply obs_is_dir.
        - apply obs_is_dir in Hd. congruence. }
      assert (fs' = fs2) by (destruct c1; inversion S; reflexivity). subst fs'.
      rewrite (forEachHook_look _ _ _ _ _ _ Hd1 F q Hq).
      eapply mkdirp_look_outside; eauto.
  - unfold bind in S. cbn [ret] in S.
    destruct (forEachHook (join target "hooks") hooks fs) as [[c1 fs2] t1] eqn:F.
    assert (fs' = fs2) by (destruct c1; inversion S; reflexivity). subst fs'.
    eapply forEachHook_look; eauto.
Qed.

(** ** The recursive search does not see below a marker *)

Lemma readdirSync_look p fs :
  readdirSync p fs =
  match look fs p with
  | inl code => (Throw (IOError code "scandir" p), fs, [EvReaddir p])
  | inr None => (Throw (IOError ENOTDIR "scandir" p), fs, [EvReaddir p])
  | inr (Some names) => (Normal names, fs, [EvReaddir p])
  end.
Proof.
  unfold readdirSync, look. destruct (resolve fs p) as [e|[d|es]]; reflexivity.
Qed.

Lemma statSync_look p fs :
  statSync p fs =
  match look fs p with
  | inl code => (Throw (IOError code "stat" p), fs, [EvStat p])
  | inr o =>
      (Normal {| isDirectory := match o with Some _ => true | None => false end |},
       fs, [EvStat p])
  end.
Proof.
  unfold statSync, look. destruct (resolve fs p) as [e|[d|es]]; reflexivity.
Qed.

Lemma is_prefix_join_cases t d x :
  is_prefix t (join d x) -> t = join d x \/ is_prefix t d.
Proof.
  intros [r H]. induction r as [|y r' _] using rev_ind.
  - left. now rewrite app_nil_r in H.
  - right. unfold join in H. rewrite app_assoc in H.
    apply app_inj_tail in H. exists r'. tauto.
Qed.

Lemma classic_prefix t q : is_prefix t q \/ ~ is_prefix t q.
Proof.
  revert q. induction t as [|a t IH]; intros q.
  - left. exists q. reflexivity.
  - destruct q as [|c q]; [right; intros [r H]; discriminate|].
    destruct (string_dec c a) as [->|Hne].
    + destruct (IH q) as [H|H]; [left|right]; now rewrite is_prefix_cons.
    + right. now apply is_prefix_cons_ne.
Qed.

Lemma agree_ret {A} fs fs1 (a : A) : agree fs fs1 (ret a).
Proof. intros c t H. cbn in *. inversion H; subst. reflexivity. Qed.

Lemma agree_bind {A B} fs fs1 (m : M A) (k : A -> M B) :
  read_only m -> agree fs fs1 m -> (forall a, agree fs fs1 (k a)) ->
  agree fs fs1 (bind m k).
Proof.
  intros Hro Hm Hk c t. unfold bind. specialize (Hro fs).
  destruct (m fs) as [[cm fsm] tm] eqn:Em. destruct Hro as [-> _].
  rewrite (Hm _ _ Em).
  destruct cm as [a| | |]; try (intros H; inversion H; subst; reflexivity).
  destruct (k a fs) as [[c' fs''] t'] eqn:Ek.
  intros H. inversion H; subst. rewrite (Hk a _ _ Ek). reflexivity.
Qed.

Lemma agree_readdirSync fs fs1 q :
  look fs1 q = look fs q -> agree fs fs1 (readdirSync q).
Proof.
  intros Hl c t. rewrite !readdirSync_look, Hl.
  destruct (look fs q) as [e|[names|]]; intros H; inversion H; reflexivity.
Qed.

Lemma agree_statSync fs fs1 q :
  look fs1 q = look fs q \/ (is_dir fs q = true /\ is_dir fs1 q = true) ->
  agree fs fs1 (statSync q).
Proof.
  intros [Hl|[H1 H2]] c t.
  - rewrite !statSync_look, Hl.
    destruct (look fs q) as [e|o]; intros H; inversion H; reflexivity.
  - unfold statSync. unfold is_dir in H1, H2.
    destruct (resolve fs q) as [e|[d|es]]; try discriminate.
    destruct (resolve fs1 q) as [e|[d|es1]]; try discriminate.
    intros H; inversion H; reflexivity.
Qed.

Section BelowMarker.
Variables (fs fs1 : node) (target : path).
Hypothesis target_marker : is_marker (basename target) = true.
Hypothesis target_dir : is_dir fs target = true.
Hypothesis target_dir1 : is_dir fs1 target = true.
Hypothesis outside :
  forall q, ~ is_prefix target q -> look fs1 q = look fs q.

Lemma loop_agree self dir l :
  ~ is_prefix target dir ->
  (forall q, read_only (self q)) ->
  (forall q, ~ is_prefix target q -> agree fs fs1 (self q)) ->
  agree fs fs1 (PolicyA.loop self dir l).
Proof.
  intros Hdir Hro Hself. induction l as [|name rest IH].
  - apply agree_ret.
  - rewrite loop_cons. apply agree_bind; [apply read_only_statSync| |].
    + apply agree_statSync.
      destruct (classic_prefix target (join dir name)) as [Hp|Hp].
      * right. apply is_prefix_join_cases in Hp. destruct Hp as [->|Hp];
          [auto|contradiction].
      * left. now apply outside.
    + intros stats. destruct (isDirectory stats); [|exact IH].
      destruct (is_marker name) eqn:Em; [apply agree_ret|].
      apply agree_bind; [apply Hro| |].
      * apply Hself. intros Hp. apply is_prefix_join_cases in Hp.
        destruct Hp as [E|Hp]; [|contradiction].
        rewrite E, basename_join in target_marker. congruence.
      * intros [r|]; [apply agree_ret|exact IH].
Qed.

Lemma fuel_agree fuel : forall dir,
  ~ is_prefix target dir ->
  agree fs fs1 (PolicyA.findTargetDirectory_fuel fuel dir).
Proof.
  induction fuel as [|f IH]; intros dir Hdir.
  - intros c t H. cbn in *. inversion H; subst. reflexivity.
  - cbn [PolicyA.findTargetDirectory_fuel].
    apply agree_bind; [apply read_only_readdirSync| |].
    + apply agree_readdirSync. now apply outside.
    + intros entries. apply loop_agree; auto.
      intros q. apply read_only_findTargetDirectory_fuel.
Qed.

Lemma policyA_agree dir :
  ~ is_prefix target dir -> agree fs fs1 (PolicyA.findTargetDirectory dir).
Proof.
  intros Hdir c t H. unfold PolicyA.findTargetDirectory in *.
  set (F := S (Nat.max (height fs) (height fs1))).
  destruct (fuel_stable_any fs dir (S (height fs)) F) as [E _]; [lia|unfold F; lia|].
  destruct (fuel_stable_any fs1 dir (S (height fs1)) F) as [E1 _]; [lia|unfold F; lia|].
  rewrite E1. apply fuel_agree; [assumption|]. now rewrite <- E.
Qed.

End BelowMarker.

(** ** Stamping again *)

Lemma replace_same c ch es : entry c es = Some ch -> replace c ch es = es.
Proof.
  induction es as [|[n x] es IH]; simpl; [reflexivity|].
  destruct (String.eqb c n) eqn:E.
  - intros H; inversion H; subst. reflexivity.
  - intros H. now rewrite IH.
Qed.

(** Writing to a file the text it already holds gives the same tree. *)
Lemma write_same p : forall n d,
  obs n p = Some (KFile d) -> write n p d = inr n.
Proof.
  induction p as [|c p IH]; intros n d.
  - destruct n; cbn; intros H; inversion H; reflexivity.
  - destruct n as [d0|es]; [discriminate|]. rewrite obs_cons_Dir. simpl.
    destruct (entry c es) as [ch|] eqn:E; [|discriminate].
    intros H. rewrite (IH _ _ H), (replace_same _ _ _ E). reflexivity.
Qed.

Lemma forEachHook_again hooksPath hooks fs :
  (forall h, In h hooks ->
     obs fs (join hooksPath (hookFile (fst h))) = Some (KFile (snd h))) ->
  forEachHook hooksPath hooks fs = (Normal tt, fs, hookWrites hooksPath hooks).
Proof.
  induction hooks as [|[n d] rest IH]; intros H; [reflexivity|].
  rewrite forEachHook_cons. unfold bind, writeFileSync.
  pose proof (write_same _ _ _ (H (n, d) (or_introl eq_refl))) as W.
  cbn [fst snd] in W. rewrite W.
  rewrite IH; [reflexivity|]. intros h Hh. apply H. now right.
Qed.

Lemma stampHooks_again target hooks fs :
  obs fs (join target "hooks") <> None ->
  (forall h, In h hooks ->
     obs fs (join (join target "hooks") (hookFile (fst h)))
     = Some (KFile (snd h))) ->
  stampHooks target hooks fs
  = (Normal (join target "hooks"), fs,
     EvExists (join target "hooks") :: hookWrites (join target "hooks") hooks).
Proof.
  intros He Hf. unfold stampHooks. unfold bind at 1. unfold existsSync.
  unfold obs in He.
  destruct (resolve fs (join target "hooks")) as [e|n]; [congruence|].
  cbn [negb]. unfold bind. cbn [ret]. rewrite (forEachHook_again _ _ _ Hf).
  cbn. now rewrite app_nil_r.
Qed.

Lemma hookFile_not_marker n : is_marker (hookFile n) = false.
Proof.
  destruct (is_marker (hookFile n)) eqn:E; [|reflexivity].
  apply is_marker_iff in E. unfold hookFile in E.
  assert (L : String.length (n ++ ".ts") = 3)
    by (destruct E as [E|E]; rewrite E; reflexivity).
  rewrite length_append in L. simpl in L.
  destruct n; [|simpl in L; lia]. simpl in E. destruct E; discriminate.
Qed.

Lemma marker_not_stamped target hooks q :
  is_marker (basename q) = true ->
  q <> join target "hooks" /\ ~ In q (hookPaths (join target "hooks") hooks).
Proof.
  intros Hm. split.
  - intros ->. rewrite basename_join in Hm. discriminate.
  - unfold hookPaths. rewrite in_map_iff. intros [h [E _]]. subst q.
    rewrite basename_join, hookFile_not_marker in Hm. discriminate.
Qed.

Lemma agree_existsAndIsDirectory fs fs1 q :
  obs fs1 q = obs fs q -> agree fs fs1 (CliV2.existsAndIsDirectory q).
Proof.
  intros Ho c t. unfold CliV2.existsAndIsDirectory, bind, existsSync, statSync.
  unfold obs in Ho.
  destruct (resolve fs q) as [e|n] eqn:E; destruct (resolve fs1 q) as [e1|n1] eqn:E1;
    try discriminate; cbn; rewrite ?E, ?E1; cbn;
    intros H; inversion H; subst; try reflexivity.
  destruct n, n1; cbn in Ho; try discriminate; reflexivity.
Qed.

Lemma not_prefix_of_start start suffix :
  suffix <> [] -> ~ is_prefix (start ++ suffix) start.
Proof.
  intros Hne [r H]. rewrite <- app_assoc in H.
  rewrite <- (app_nil_r start) in H at 1. apply app_inv_head in H.
  symmetry in H. apply app_eq_nil in H. tauto.
Qed.

(** After stamping the resolver runs as before and finds the same target. *)
Lemma resolver_again v hooks start fs target tr c fs1 ts :
  resolver v start fs = (Normal (Some target), fs, tr) ->
  stampHooks target hooks fs = (c, fs1, ts) ->
  resolver v start fs1 = (Normal (Some target), fs1, tr).
Proof.
  intros R S.
  destruct (resolver_result _ _ _ _ _ _ R) as [[s [Hne [Et [Hm Hd]]]] _].
  pose proof (stampHooks_keeps_target _ _ _ _ _ _ Hd S) as Hd1.
  pose proof (stampHooks_run target hooks fs c fs1 ts Hd S) as Hs.
  cbv zeta in Hs. destruct Hs as [Hf _].
  assert (Hobs : forall q, is_marker (basename q) = true -> obs fs1 q = obs fs q).
  { intros q Hq. destruct (marker_not_stamped target hooks q Hq). now apply Hf. }
  assert (HA : agree fs fs1 (PolicyA.findTargetDirectory start)).
  { apply (policyA_agree fs fs1 target Hm Hd Hd1).
    - intros q Hq. eapply stampHooks_look; eauto.
    - subst target. now apply not_prefix_of_start. }
  destruct v; simpl in R |- *; try (now apply HA).
  revert R. generalize (Normal (Some target)) as r. intros r.
  generalize dependent tr. intros tr. revert r tr.
  change (agree fs fs1 (CliV2.findTargetDirectory start)).
  unfold CliV2.findTargetDirectory.
  apply agree_bind; [apply read_only_existsAndIsDirectory| |].
  - apply agree_existsAndIsDirectory, Hobs. now rewrite basename_join.
  - intros [|].
    + apply agree_bind; [apply read_only_existsAndIsDirectory| |].
      * apply agree_existsAndIsDirectory, Hobs. now rewrite basename_join.
      * intros [|]; apply agree_ret.
    + apply agree_bind; [apply read_only_existsAndIsDirectory| |].
      * apply agree_existsAndIsDirectory, Hobs. now rewrite basename_join.
      * intros [|]; apply agree_ret.
Qed.

Lemma stampHooks_hooksPath_exists target hooks fs r fs' t :
  stampHooks target hooks fs = (Normal r, fs', t) ->
  obs fs' (join target "hooks") <> None.
Proof.
  unfold stampHooks. unfold bind at 1. unfold existsSync.
  destruct (resolve fs (join target "hooks")) as [e|n] eqn:R; cbn [negb].
  - unfold bind at 1. unfold mkdirSync.
    destruct (mkdirp fs (join target "hooks")) as [e'|fs1] eqn:Mk; [discriminate|].
    unfold bind.
    destruct (forEachHook (join target "hooks") hooks fs1) as [[c1 fs2] t1] eqn:F.
    destruct (forEachHook_run _ _ _ _ _ _ F) as [Hf _].
    destruct c1; intros H; inversion H; subst.
    rewrite Hf by apply hooksPath_not_hookPath.
    rewrite (mkdirp_is_dir _ _ _ Mk). discriminate.
  - unfold bind. cbn [ret].
    destruct (forEachHook (join target "hooks") hooks fs) as [[c1 fs2] t1] eqn:F.
    destruct (forEachHook_run _ _ _ _ _ _ F) as [Hf _].
    destruct c1; intros H; inversion H; subst.
    rewrite Hf by apply hooksPath_not_hookPath.
    unfold obs. rewrite R. discriminate.
Qed.

(** X1. Idempotence.  After a run that found a target and completed, a
    second run on the tree it left finds the same target, creates no
    directory, writes the same files again and leaves the tree exactly as it
    was. *)
Theorem stamping_twice (v : variant) (hooks : table) (start : path)
    (fs : node) (target : path) (tr : list event) (fs1 : node)
    (t1 : list event) :
  NoDup (map fst hooks) ->
  resolver v start fs = (Normal (Some target), fs, tr) ->
  entryPoint v hooks start fs = (Normal tt, fs1, t1) ->
  entryPoint v hooks start fs1
  = (Normal tt, fs1,
     tr ++ (EvExists (target ++ ["hooks"])
            :: map (fun h => EvWriteFile (target ++ ["hooks"; hookFile (fst h)])
                               (snd h)) hooks)
        ++ [successMessage v (target ++ ["hooks"])]).
Proof.
  intros Hnd R E.
  destruct (entryPoint_found v hooks start fs target tr R)
    as [_ [Hd [c [fs' [ts [S E']]]]]].
  rewrite E in E'. destruct c as [hp|e|code|]; try discriminate.
  inversion E' as [[Efs Et]]. subst fs'. clear E'.
  pose proof (stampHooks_run target hooks fs _ fs1 ts Hd S) as Hs.
  cbv zeta in Hs. destruct Hs as [_ [_ [_ [_ [_ [_ Hcont]]]]]].
  pose proof (stampHooks_hooksPath_exists _ _ _ _ _ _ S) as Hex.
  pose proof (resolver_again v hooks start fs target tr _ fs1 ts R S) as R1.
  destruct (entryPoint_found v hooks start fs1 target tr R1)
    as [_ [_ [c2 [fs2 [ts2 [S2 E2]]]]]].
  rewrite stampHooks_again in S2; auto.
  - inversion S2; subst c2 fs2 ts2. rewrite E2, <- hookWrites_explicit.
    reflexivity.
  - intros [n d] Hin. apply Hcont; assumption.
Qed.

(** The newest command-line tool run twice on [/proj]. *)
Lemma stamping_twice_witness :
  NoDup (map fst sampleHooks)
  /\ final (entryPoint CommandLineV2 sampleHooks ["proj"]
              (final (entryPoint CommandLineV2 sampleHooks ["proj"] projFs)))
     = final (entryPoint CommandLineV2 sampleHooks ["proj"] projFs).
Proof.
  assert (Hnd : NoDup (map fst sampleHooks))
    by (apply (source_tables_NoDup sampleTemplate)).
  split; [exact Hnd|].
  destruct (entryPoint CommandLineV2 sampleHooks ["proj"] projFs)
    as [[c fs1] t1] eqn:E.
  assert (Hc : c = Normal tt) by (vm_compute in E; congruence).
  subst c. unfold final. cbn [fst snd].
  rewrite (stamping_twice CommandLineV2 sampleHooks ["proj"] projFs
             ["proj"; "src"; "app"] _ fs1 t1 Hnd eq_refl E).
  reflexivity.
Defined.

(** ** A write that fails *)

Lemma forEachHook_throw hooksPath hooks : forall fs e fs' t,
  forEachHook hooksPath hooks fs = (Throw e, fs', t) ->
  exists earlier n d later code,
    hooks = earlier ++ (n, d) :: later
    /\ e = IOError code "open" (join hooksPath (hookFile n))
    /\ forEachHook hooksPath earlier fs
       = (Normal tt, fs', hookWrites hooksPath earlier)
    /\ t = hookWrites hooksPath (earlier ++ [(n, d)]).
Proof.
  induction hooks as [|[n d] rest IH]; intros fs e fs' t.
  - cbn. discriminate.
  - rewrite forEachHook_cons. unfold bind, writeFileSync.
    destruct (write fs (join hooksPath (hookFile n)) d) as [code|fs1] eqn:W.
    + intros H; inversion H; subst.
      exists [], n, d, rest, code. repeat split; reflexivity.
    + destruct (forEachHook hooksPath rest fs1) as [[c1 fs2] t1] eqn:R.
      intros H; inversion H; subst. clear H.
      destruct (IH _ _ _ _ R) as [earlier [n' [d' [later [code [-> [-> [F ->]]]]]]]].
      exists ((n, d) :: earlier), n', d', later, code.
      split; [reflexivity|]. split; [reflexivity|]. split; [|reflexivity].
      rewrite forEachHook_cons. unfold bind, writeFileSync. rewrite W, F.
      reflexivity.
Qed.

(** Below an existing directory a missing folder can always be created. *)
Lemma mkdirp_child_ok t : forall n c,
  is_dir n t = true -> obs n (t ++ [c]) = None ->
  exists n', mkdirp n (t ++ [c]) = inr n'.
Proof.
  induction t as [|a t IH]; intros n c Hd Ho.
  - destruct n as [d|es]; [discriminate|]. cbn [app] in Ho.
    rewrite obs_cons_Dir in Ho. simpl.
    destruct (entry c es) as [ch|]; [|eauto].
    destruct ch; cbn in Ho; discriminate.
  - destruct n as [d|es]; [discriminate|].
    rewrite is_dir_cons in Hd. cbn [app] in Ho. rewrite obs_cons_Dir in Ho. simpl.
    destruct (entry a es) as [ch|]; [|discriminate].
    destruct (IH ch c Hd Ho) as [ch' ->]. eauto.
Qed.

Lemma hookWrites_app hooksPath l1 l2 :
  hookWrites hooksPath (l1 ++ l2)
  = hookWrites hooksPath l1 ++ hookWrites hooksPath l2.
Proof. apply map_app. Qed.

Lemma NoDup_app_disjoint {A} (l1 l2 : list A) x :
  NoDup (l1 ++ l2) -> In x l1 -> In x l2 -> False.
Proof.
  induction l1 as [|a l1 IH]; simpl; intros Hnd H1 H2; [assumption|].
  inversion Hnd; subst. destruct H1 as [->|H1].
  - apply H3. apply in_or_app. now right.
  - now apply IH.
Qed.

Lemma stampHooks_throw target hooks fs e fs' t :
  is_dir fs target = true ->
  NoDup (map fst hooks) ->
  stampHooks target hooks fs = (Throw e, fs', t) ->
  exists earlier n d later code,
    hooks = earlier ++ (n, d) :: later
    /\ e = IOError code "open" (join (join target "hooks") (hookFile n))
    /\ (forall h, In h earlier ->
          obs fs' (join (join target "hooks") (hookFile (fst h)))
          = Some (KFile (snd h)))
    /\ (forall h, In h ((n, d) :: later) ->
          obs fs' (join (join target "hooks") (hookFile (fst h)))
          = obs fs (join (join target "hooks") (hookFile (fst h))))
    /\ filter is_file_write t
       = hookWrites (join target "hooks") (earlier ++ [(n, d)]).
Proof.
  intros Hd Hnd S. set (hp := join target "hooks") in *.
  assert (Hmid : exists fs1 t0 t1,
             forEachHook hp hooks fs1 = (Throw e, fs', t1)
             /\ t = t0 ++ t1 /\ filter is_file_write t0 = []
             /\ forall q, ~ is_prefix q hp -> obs fs1 q = obs fs q).
  { unfold stampHooks in S. fold hp in S.
    unfold bind at 1 in S. unfold existsSync in S.
    destruct (resolve fs hp) as [code|n] eqn:R; cbn [negb] in S.
    - assert (Ho : obs fs hp = None) by (unfold obs; now rewrite R).
      destruct (mkdirp_child_ok target fs "hooks" Hd Ho) as [fs1 Mk].
      fold (join target "hooks") in Mk. fold hp in Mk.
      unfold bind at 1 in S. unfold mkdirSync in S. rewrite Mk in S.
      unfold bind in S.
      destruct (forEachHook hp hooks fs1) as [[c1 fs2] t1] eqn:F.
      destruct c1; inversion S; subst.
      exists fs1, [EvExists hp; EvMkdir hp], t1.
      repeat split; auto. intros q Hq.
      destruct (mkdirp_frame _ _ _ q Mk) as [E|[_ [_ [r Hr]]]]; [assumption|].
      elim Hq. exists r. exact Hr.
    - unfold bind in S. cbn [ret] in S.
      destruct (forEachHook hp hooks fs) as [[c1 fs2] t1] eqn:F.
      destruct c1; inversion S; subst.
      exists fs, [EvExists hp], t1. repeat split; auto. }
  destruct Hmid as [fs1 [t0 [t1 [F [-> [Ht0 Hpre]]]]]].
  destruct (forEachHook_throw _ _ _ _ _ _ F)
    as [earlier [n [d [later [code [-> [-> [Fe ->]]]]]]]].
  exists earlier, n, d, later, code.
  rewrite map_app in Hnd. apply NoDup_app_remove_r in Hnd as Hnd1.
  destruct (forEachHook_run _ _ _ _ _ _ Fe) as [Hf _].
  split; [reflexivity|]. split; [reflexivity|]. split; [|split].
  - intros [n' d'] Hin. eapply forEachHook_contents; eauto.
  - intros h Hin. rewrite Hf.
    + apply Hpre. intros [r Hr]. apply (f_equal (@List.length string)) in Hr.
      unfold hp, join in Hr. rewrite !length_app in Hr. simpl in Hr. lia.
    + intros Hq. apply hookPaths_In in Hq.
      apply (NoDup_app_disjoint _ _ (fst h) Hnd Hq). now apply in_map.
  - rewrite filter_app, Ht0. cbn [app].
    apply filter_file_write_hookWrites.
Qed.

(** X2. No rollback.  When a run that found a target ends in an exception,
    the exception is the failure of one [writeFileSync]; the entries before
    the failing one are on disk with their text, the failing entry and those
    after it name what they named before, and nothing was printed. *)
Theorem failed_write_keeps_earlier (v : variant) (hooks : table)
    (start : path) (fs : node) (target : path) (tr : list event) (e : exn)
    (fs' : node) (t : list event) :
  NoDup (map fst hooks) ->
  resolver v start fs = (Normal (Some target), fs, tr) ->
  entryPoint v hooks start fs = (Throw e, fs', t) ->
  exists earlier n d later code,
    hooks = earlier ++ (n, d) :: later
    /\ e = IOError code "open" (target ++ ["hooks"; hookFile n])
    /\ (forall h, In h earlier ->
          obs fs' (target ++ ["hooks"; hookFile (fst h)]) = Some (KFile (snd h)))
    /\ (forall h, In h ((n, d) :: later) ->
          obs fs' (target ++ ["hooks"; hookFile (fst h)])
          = obs fs (target ++ ["hooks"; hookFile (fst h)]))
    /\ filter is_file_write t
       = map (fun h => EvWriteFile (target ++ ["hooks"; hookFile (fst h)]) (snd h))
             (earlier ++ [(n, d)])
    /\ filter is_message t = [].
Proof.
  intros Hnd R E.
  destruct (entryPoint_found v hooks start fs target tr R)
    as [Htr [Hd [c [fs1 [ts [S E']]]]]].
  rewrite E in E'. destruct c as [hp|e'|code|]; try discriminate.
  inversion E'; subst e' fs1 t. clear E'.
  destruct (stampHooks_throw target hooks fs e fs' ts Hd Hnd S)
    as [earlier [n [d [later [code [Eh [Ee [H1 [H2 H3]]]]]]]]].
  pose proof (stampHooks_run target hooks fs _ fs' ts Hd S) as Hs.
  cbv zeta in Hs. destruct Hs as [_ [_ [_ [Hm _]]]].
  exists earlier, n, d, later, code.
  destruct (filter_reads tr Htr) as [_ [Hmsg Hfw]].
  rewrite <- hookWrites_explicit, !filter_app, Hfw, Hmsg, Hm, H3.
  rewrite join_join in Ee.
  split; [exact Eh|]. split; [exact Ee|]. split; [|split; [|split]].
  - intros h Hin. rewrite <- join_join. now apply H1.
  - intros h Hin. rewrite <- join_join. now apply H2.
  - cbn. now rewrite app_nil_r.
  - reflexivity.
Qed.

(** With [/site/app/hooks/useFetch.ts] a folder, the two entries before it
    are written and the third fails. *)
Lemma failed_write_keeps_earlier_witness :
  NoDup (map fst sampleHooks)
  /\ exists fs' t earlier n d later code,
       entryPoint CommandLineV2 sampleHooks ["site"] takenFs
       = (Throw (IOError code "open" (["site"; "app"] ++ ["hooks"; hookFile n])),
          fs', t)
       /\ sampleHooks = earlier ++ (n, d) :: later
       /\ forall h, In h earlier ->
            obs fs' (["site"; "app"] ++ ["hooks"; hookFile (fst h)])
            = Some (KFile (snd h)).
Proof.
  assert (Hnd : NoDup (map fst sampleHooks))
    by (apply (source_tables_NoDup sampleTemplate)).
  split; [exact Hnd|].
  destruct (entryPoint CommandLineV2 sampleHooks ["site"] takenFs)
    as [[c fs'] t] eqn:E.
  assert (Hc : c = Throw (IOError EISDIR "open"
                            ["site"; "app"; "hooks"; "useFetch.ts"]))
    by (vm_compute in E; congruence).
  subst c.
  destruct (failed_write_keeps_earlier CommandLineV2 sampleHooks ["site"]
              takenFs ["site"; "app"] _ _ fs' t Hnd eq_refl E)
    as [earlier [n [d [later [code [Eh [Ee [H1 _]]]]]]]].
  exists fs', t, earlier, n, d, later, code. rewrite <- Ee. auto.
Defined.

(** ** When stamping succeeds *)

Lemma write_child_iff parent : forall n c d,
  (exists n', write n (parent ++ [c]) d = inr n')
  <-> obs n parent = Some KDir /\ obs n (parent ++ [c]) <> Some KDir.
Proof.
  induction parent as [|a parent IH]; intros n c d; cbn [app].
  - destruct n as [d0|es].
    + cbn. split; [intros [n' H]; discriminate|intros [H _]; discriminate].
    + rewrite obs_cons_Dir. simpl.
      destruct (entry c es) as [[d1|es1]|]; cbn.
      * split; [intros _; split; [reflexivity|discriminate]|eauto].
      * split; [intros [n' H]; discriminate|intros [_ H]; congruence].
      * split; [intros _; split; [reflexivity|discriminate]|eauto].
  - destruct n as [d0|es].
    + cbn. split; [intros [n' H]; discriminate|intros [H _]; discriminate].
    + rewrite !obs_cons_Dir. simpl.
      destruct (entry a es) as [ch|].
      * rewrite <- (IH ch c d). split; intros [n' H].
        -- destruct (write ch (parent ++ [c]) d) as [e|ch'] eqn:W;
             [discriminate|eauto].
        -- rewrite H. eauto.
      * destruct (parent ++ [c]) eqn:Ep; [destruct parent; discriminate|].
        split; [intros [n' H]; discriminate|intros [H _]; discriminate].
Qed.

Lemma forEachHook_ok_iff hooksPath hooks : forall fs,
  outcome (forEachHook hooksPath hooks fs) = Normal tt
  <-> hooks = []
      \/ (obs fs hooksPath = Some KDir
          /\ forall h, In h hooks ->
               obs fs (join hooksPath (hookFile (fst h))) <> Some KDir).
Proof.
  induction hooks as [|[n d] rest IH]; intros fs.
  - cbn. tauto.
  - rewrite forEachHook_cons. unfold bind, writeFileSync.
    pose proof (write_child_iff hooksPath fs (hookFile n) d) as W.
    fold (join hooksPath (hookFile n)) in W.
    destruct (write fs (join hooksPath (hookFile n)) d) as [e|fs1] eqn:Ew.
    + cbn. split; [discriminate|]. intros [H|[H1 H2]]; [discriminate|].
      destruct W as [_ W]. destruct W as [n' W]; [|discriminate].
      split; [assumption|]. apply (H2 (n, d)). now left.
    + destruct W as [W _]. destruct W as [W1 W2]; [eauto|].
      assert (Hhp : obs fs1 hooksPath = obs fs hooksPath).
      { apply (write_frame _ _ _ _ _ Ew). apply join_ne_self. }
      assert (Hq : forall q, obs fs1 q <> Some KDir <-> obs fs q <> Some KDir
                             \/ q = join hooksPath (hookFile n)).
      { intros q. destruct (list_eq_dec string_dec q (join hooksPath (hookFile n)))
          as [->|Hne].
        - rewrite (write_resolve _ _ _ _ Ew). split; [auto|discriminate].
        - rewrite (write_frame _ _ _ _ _ Ew Hne). tauto. }
      specialize (IH fs1).
      destruct (forEachHook hooksPath rest fs1) as [[c1 fs2] t1] eqn:R.
      unfold outcome in *. cbn [fst] in *.
      cbn. rewrite IH. rewrite Hhp. split.
      * intros [->|[H1 H2]]; right; (split; [assumption|]).
        -- intros h [<-|[]]. exact W2.
        -- intros h [<-|Hin]; [exact W2|].
           specialize (H2 h Hin). apply Hq in H2.
           destruct H2 as [H2|H2]; [assumption|]. cbn [fst]. now rewrite H2.
      * intros [H|[H1 H2]]; [discriminate|].
        destruct rest as [|h0 rest']; [now left|]. right.
        split; [assumption|]. intros h Hin. apply Hq. left. apply H2. now right.
Qed.

Lemma obs_child_of_missing fs p c : obs fs p = None -> obs fs (join p c) = None.
Proof.
  intros H. destruct (obs fs (join p c)) eqn:E; [|reflexivity].
  elim (obs_prefix fs p [c]); [|assumption]. unfold join in E. congruence.
Qed.

Lemma stampHooks_ok_iff target hooks fs :
  is_dir fs target = true ->
  (exists r, outcome (stampHooks target hooks fs) = Normal r)
  <-> hooks = []
      \/ ((forall d, obs fs (join target "hooks") <> Some (KFile d))
          /\ forall h, In h hooks ->
               obs fs (join (join target "hooks") (hookFile (fst h)))
               <> Some KDir).
Proof.
  intros Hd. set (hp := join target "hooks").
  unfold stampHooks. fold hp. unfold bind at 1. unfold existsSync.
  destruct (resolve fs hp) as [code|n] eqn:R; cbn [negb].
  - assert (Ho : obs fs hp = None) by (unfold obs; now rewrite R).
    destruct (mkdirp_child_ok target fs "hooks" Hd Ho) as [fs1 Mk].
    fold (join target "hooks") in Mk. fold hp in Mk.
    unfold bind at 1. unfold mkdirSync. rewrite Mk. unfold bind.
    pose proof (forEachHook_ok_iff hp hooks fs1) as Hok.
    destruct (forEachHook hp hooks fs1) as [[c1 fs2] t1] eqn:F.
    unfold outcome in *. cbn [fst] in Hok.
    assert (Hall : forall h : string * string,
               obs fs1 (join hp (hookFile (fst h))) <> Some KDir
               /\ obs fs (join hp (hookFile (fst h))) <> Some KDir).
    { intros h. rewrite (obs_child_of_missing fs hp _ Ho).
      destruct (mkdirp_frame _ _ _ (join hp (hookFile (fst h))) Mk)
        as [E|[_ [_ [r Hr]]]].
      - rewrite E, (obs_child_of_missing fs hp _ Ho). split; discriminate.
      - apply (f_equal (@List.length string)) in Hr. unfold join in Hr.
        rewrite !length_app in Hr. simpl in Hr. lia. }
    split.
    + intros _. right. rewrite Ho. split; [discriminate|]. intros h _. apply Hall.
    + intros _. assert (Hc : c1 = Normal tt).
      { apply Hok. right. split; [eapply mkdirp_is_dir; eauto|].
        intros h _. apply Hall. }
      subst c1. cbn. eauto.
  - assert (Ho : obs fs hp = Some (kind_of n)) by (unfold obs; now rewrite R).
    unfold bind. cbn [ret].
    pose proof (forEachHook_ok_iff hp hooks fs) as Hok.
    destruct (forEachHook hp hooks fs) as [[c1 fs2] t1] eqn:F.
    unfold outcome in *. cbn [fst] in Hok. rewrite Ho in *. split.
    + intros [r Hr]. assert (Hc : c1 = Normal tt).
      { destruct c1 as [[]| | |]; cbn in Hr; try discriminate. reflexivity. }
      apply Hok in Hc. destruct Hc as [Hc|[H1 H2]]; [now left|right].
      split; [intros d; rewrite H1; discriminate|assumption].
    + intros H. assert (Hc : c1 = Normal tt).
      { apply Hok. destruct H as [H|[H1 H2]]; [now left|right].
        split; [|assumption]. destruct n as [d|es]; [elim (H1 d); reflexivity|].
        reflexivity. }
      subst c1. cbn. eauto.
Qed.

(** X3. When stamping succeeds.  In a tree of plain files and directories, a
    run that found a target completes exactly when the table is empty, or
    [target/hooks] is not a regular file and no [target/hooks/<hookName>.ts]
    is a directory.  The guard before [mkdirSync] tests existence only, so a
    regular file named [hooks] is kept and the first write fails. *)
Theorem stamping_succeeds_iff (v : variant) (hooks : table) (start : path)
    (fs : node) (target : path) (tr : list event) :
  resolver v start fs = (Normal (Some target), fs, tr) ->
  outcome (entryPoint v hooks start fs) = Normal tt
  <-> hooks = []
      \/ ((forall d, obs fs (target ++ ["hooks"]) <> Some (KFile d))
          /\ forall h, In h hooks ->
               obs fs (target ++ ["hooks"; hookFile (fst h)]) <> Some KDir).
Proof.
  intros R.
  destruct (entryPoint_found v hooks start fs target tr R)
    as [_ [Hd [c [fs1 [ts [S E]]]]]].
  pose proof (stampHooks_ok_iff target hooks fs Hd) as Hok.
  rewrite S in Hok. unfold outcome in *. cbn [fst] in Hok.
  rewrite E. cbn [fst].
  assert (Hiff : (exists r, c = Normal r)
                 <-> match c with
                     | Normal _ => Normal tt
                     | Throw e => Throw e
                     | Exit code => Exit code
                     | OutOfFuel => OutOfFuel
                     end = Normal tt).
  { destruct c; split; try discriminate; eauto; intros [r H]; discriminate. }
  rewrite <- Hiff, Hok. unfold join. 
  split; (intros [H|[H1 H2]]; [now left|right; split; [assumption|]]);
    intros h Hin; specialize (H2 h Hin); now rewrite <- app_assoc in *.
Qed.

(** On [/clash], where [hooks] is a regular file, the run cannot complete. *)
Lemma stamping_succeeds_iff_witness :
  outcome (entryPoint CommandLineV2 sampleHooks ["clash"] clashFs) <> Normal tt.
Proof.
  intros H.
  apply (stamping_succeeds_iff CommandLineV2 sampleHooks ["clash"] clashFs
           ["clash"; "src"] _ eq_refl) in H.
  destruct H as [H|[H _]]; [discriminate|].
  apply (H "notes"). reflexivity.
Defined.

(** ** Where the recursive search looks *)

Lemma unmarked_snoc s name :
  unmarked s = true -> is_marker name = false -> unmarked (s ++ [name]) = true.
Proof.
  intros Hs Hn. unfold unmarked in *. rewrite forallb_app, Hs. simpl.
  now rewrite Hn.
Qed.

Lemma stops_at_marker_cons dir0 e c fs t :
  confined dir0 e ->
  stops_at_marker dir0 (c, fs, t) -> stops_at_marker dir0 (c, fs, e :: t).
Proof.
  intros He [Ht Hp]. split; [constructor; assumption|exact Hp].
Qed.

Lemma stops_at_marker_app dir0 c fs t0 t :
  Forall (confined dir0) t0 ->
  stops_at_marker dir0 (c, fs, t) -> stops_at_marker dir0 (c, fs, t0 ++ t).
Proof.
  intros H0 [Ht Hp]. split; [apply Forall_app; split; assumption|exact Hp].
Qed.

Lemma loop_stops_at_marker self dir0 s l :
  unmarked s = true ->
  (forall name fs, is_marker name = false ->
     stops_at_marker dir0 (self (join (dir0 ++ s) name) fs)) ->
  forall fs, stops_at_marker dir0 (PolicyA.loop self (dir0 ++ s) l fs).
Proof.
  intros Hs Hself. induction l as [|name rest IH]; intros fs.
  - split; [constructor|]. cbn. discriminate.
  - rewrite loop_cons. unfold bind at 1. unfold statSync.
    assert (Hst : confined dir0 (EvStat (join (dir0 ++ s) name))).
    { exists s, name. unfold join. now rewrite <- app_assoc. }
    destruct (resolve fs (join (dir0 ++ s) name)) as [e|n].
    + split; [repeat constructor; assumption|]. cbn. discriminate.
    + destruct n as [d|es]; cbn [stats_of isDirectory].
      * specialize (IH fs).
        destruct (PolicyA.loop self (dir0 ++ s) rest fs) as [[c fs'] t].
        now apply stops_at_marker_cons.
      * destruct (is_marker name) eqn:Em.
        -- split; [repeat constructor; assumption|].
           cbn. intros p H. inversion H; subst.
           exists s, name. unfold join. rewrite <- app_assoc. auto.
        -- unfold bind. specialize (Hself name fs Em).
           destruct (self (join (dir0 ++ s) name) fs) as [[c fs1] t1].
           destruct Hself as [Ht1 Hp1]. cbn [trace outcome fst snd] in *.
           destruct c as [[r|]| | |].
           ++ split; [constructor; [assumption|]|].
              ** cbn. now rewrite app_nil_r.
              ** cbn. intros p H. inversion H; subst. now apply Hp1.
           ++ specialize (IH fs1).
              destruct (PolicyA.loop self (dir0 ++ s) rest fs1) as [[c fs'] t].
              apply stops_at_marker_cons; [assumption|].
              now apply stops_at_marker_app.
           ++ split; [constructor; assumption|]. cbn. discriminate.
           ++ split; [constructor; assumption|]. cbn. discriminate.
           ++ split; [constructor; assumption|]. cbn. discriminate.
Qed.

Lemma fuel_stops_at_marker fuel : forall dir0 s fs,
  unmarked s = true ->
  stops_at_marker dir0 (PolicyA.findTargetDirectory_fuel fuel (dir0 ++ s) fs).
Proof.
  induction fuel as [|f IH]; intros dir0 s fs Hs.
  - split; [constructor|]. cbn. discriminate.
  - cbn [PolicyA.findTargetDirectory_fuel]. unfold bind at 1. unfold readdirSync.
    assert (Hrd : confined dir0 (EvReaddir (dir0 ++ s))) by (exists s; auto).
    destruct (resolve fs (dir0 ++ s)) as [e|[d|es]];
      try (split; [repeat constructor; assumption|cbn; discriminate]).
    pose proof (loop_stops_at_marker (PolicyA.findTargetDirectory_fuel f)
                  dir0 s (map fst es) Hs) as Hl.
    specialize (Hl (fun name fs' Hn =>
      eq_ind _ (fun q => stops_at_marker dir0
                           (PolicyA.findTargetDirectory_fuel f q fs'))
             (IH dir0 (s ++ [name]) fs' (unmarked_snoc s name Hs Hn))
             _ (app_assoc dir0 s [name])) fs).
    destruct (PolicyA.loop (PolicyA.findTargetDirectory_fuel f) (dir0 ++ s)
                (map fst es) fs) as [[c fs'] t].
    now apply stops_at_marker_cons.
Qed.

Lemma shallow_lookup_run fs dir :
  exists t,
    CliV2.findTargetDirectory dir fs
    = (Normal
         (if is_dir fs (dir ++ ["src"]) then
            if is_dir fs (dir ++ ["src"; "app"])
            then Some (dir ++ ["src"; "app"])
            else Some (dir ++ ["src"])
          else if is_dir fs (dir ++ ["app"]) then Some (dir ++ ["app"])
          else None),
       fs, t).
Proof.
  destruct (policyB_run fs dir) as [t [E _]]. exists t.
  rewrite E. unfold shallowChoice. rewrite join_join. reflexivity.
Qed.

Lemma policyA_stops fs start :
  stops_at_marker start (PolicyA.findTargetDirectory start fs).
Proof.
  pose proof (fuel_stops_at_marker (S (height fs)) start [] fs eq_refl) as H.
  now rewrite app_nil_r in H.
Qed.

(** X4. The recursive search never leaves its starting directory and never
    looks inside a folder named [src] or [app]: every call it issues lists a
    directory reached from the start through folders that are not markers, or
    looks at an entry of such a directory; and its result, if any, is a
    marker reached in that way. *)
Theorem policyA_stays_outside_markers (fs : node) (start : path) :
  Forall (confined start) (trace (CliV1.findTargetDirectory start fs))
  /\ Forall (confined start) (trace (Extension.findHooksDirectory start fs))
  /\ forall p,
       outcome (CliV1.findTargetDirectory start fs) = Normal (Some p) ->
       exists s name, p = start ++ s ++ [name]
                      /\ unmarked s = true /\ is_marker name = true.
Proof.
  destruct (policyA_stops fs start) as [H1 H2].
  split; [exact H1|]. split; [exact H1|exact H2].
Qed.

(** X5. The two policies part on a nested [src/app]: whenever [start/src]
    and [start/src/app] are directories the shallow lookup returns
    [start/src/app], and the recursive search never returns that path. *)
Theorem policies_part_on_nested_app (fs : node) (start : path) :
  is_dir fs (start ++ ["src"]) = true ->
  is_dir fs (start ++ ["src"; "app"]) = true ->
  outcome (CliV2.findTargetDirectory start fs)
  = Normal (Some (start ++ ["src"; "app"]))
  /\ outcome (CliV1.findTargetDirectory start fs)
     <> Normal (Some (start ++ ["src"; "app"]))
  /\ outcome (Extension.findHooksDirectory start fs)
     <> Normal (Some (start ++ ["src"; "app"])).
Proof.
  intros H1 H2.
  destruct (shallow_lookup_run fs start) as [t E].
  split; [rewrite E; unfold outcome; cbn [fst]; now rewrite H1, H2|].
  assert (HA : outcome (PolicyA.findTargetDirectory start fs)
               <> Normal (Some (start ++ ["src"; "app"]))).
  { intros H. destruct (policyA_stops fs start) as [_ Hp].
    destruct (Hp _ H) as [s [name [Ep [Hs Hn]]]].
    apply app_inv_head in Ep.
    destruct s as [|a [|b s]]; simpl in Ep.
    - discriminate.
    - inversion Ep; subst. discriminate.
    - inversion Ep as [[Ea Eb Es]]. destruct s; discriminate. }
  split; exact HA.
Qed.

Lemma policies_part_on_nested_app_witness :
  is_dir projFs (["proj"] ++ ["src"]) = true
  /\ is_dir projFs (["proj"] ++ ["src"; "app"]) = true
  /\ outcome (CliV2.findTargetDirectory ["proj"] projFs)
     = Normal (Some (["proj"] ++ ["src"; "app"]))
  /\ outcome (CliV1.findTargetDirectory ["proj"] projFs)
     <> Normal (Some (["proj"] ++ ["src"; "app"])).
Proof.
  split; [reflexivity|]. split; [reflexivity|].
  destruct (policies_part_on_nested_app projFs ["proj"] eq_refl eq_refl)
    as [H1 [H2 _]].
  split; assumption.
Defined.

(** ** The policies compared *)

Lemma find_some_of_member {A} (f : A -> bool) l x :
  In x l -> f x = true -> find f l <> None.
Proof.
  induction l as [|y l IH]; simpl; [tauto|].
  intros [->|H] Hx; [now rewrite Hx|].
  destruct (f y); [discriminate|now apply IH].
Qed.

(** X6. Whatever the shallow lookup accepts, the recursive search accepts:
    on a well-formed tree, when Policy B finds a target below a directory,
    Policy A finds one too (not necessarily the same); so a start on which
    Policy A finds nothing is one on which Policy B finds nothing. *)
Theorem policyB_found_policyA_found (fs : node) (start : path)
    (es : list (string * node)) (p : path) :
  resolve fs start = inr (Dir es) ->
  well_formed (Dir es) = true ->
  outcome (CliV2.findTargetDirectory start fs) = Normal (Some p) ->
  exists q,
    outcome (CliV1.findTargetDirectory start fs) = Normal (Some q)
    /\ outcome (Extension.findHooksDirectory start fs) = Normal (Some q).
Proof.
  intros Hdir Hwf HB.
  destruct (policyB_run fs start) as [t [E _]]. rewrite E in HB.
  unfold outcome in HB. cbn [fst] in HB. inversion HB as [Hs].
  destruct (shallowChoice_below _ _ _ Hs) as [Hb _].
  apply (marker_below_listed _ _ _ _ Hdir) in Hb.
  unfold markerDirs in Hb. apply filter_In in Hb. destruct Hb as [Hin Hm].
  destruct (policyA_correct fs start es Hdir Hwf) as [ta [EA _]].
  pose proof (find_some_of_member _ _ _ Hin Hm) as Hf.
  unfold CliV1.findTargetDirectory, Extension.findHooksDirectory.
  rewrite EA. unfold outcome, firstMarker. cbn [fst].
  destruct (find is_marker_path (preorder start (Dir es))) as [q|];
    [eauto|congruence].
Qed.

Lemma policyB_found_policyA_found_witness :
  resolve projFs ["proj"] = inr (Dir projEntries)
  /\ well_formed (Dir projEntries) = true
  /\ outcome (CliV2.findTargetDirectory ["proj"] projFs)
     = Normal (Some ["proj"; "src"; "app"])
  /\ exists q,
       outcome (CliV1.findTargetDirectory ["proj"] projFs) = Normal (Some q)
       /\ outcome (Extension.findHooksDirectory ["proj"] projFs) = Normal (Some q).
Proof.
  split; [reflexivity|]. split; [reflexivity|]. split; [reflexivity|].
  apply (policyB_found_policyA_found projFs ["proj"] projEntries
           ["proj"; "src"; "app"]); reflexivity.
Defined.

(** X7. The shallow lookup is bounded: whatever the tree, it issues at most
    four filesystem calls, all of them on [dir/src], [dir/src/app] or
    [dir/app]. *)
Theorem policyB_bounded (fs : node) (dir : path) :
  List.length (trace (CliV2.findTargetDirectory dir fs)) <= 4
  /\ Forall (fun e => exists q,
               (e = EvExists q \/ e = EvStat q)
               /\ (q = dir ++ ["src"] \/ q = dir ++ ["src"; "app"]
                   \/ q = dir ++ ["app"]))
            (trace (CliV2.findTargetDirectory dir fs)).
Proof.
  unfold CliV2.findTargetDirectory, CliV2.existsAndIsDirectory, bind,
    existsSync, statSync, trace.
  rewrite !join_join. unfold join.
  destruct (resolve fs (dir ++ ["src"])) as [e1|[d1|es1]] eqn:E1; cbn;
    rewrite ?E1; cbn;
    destruct (resolve fs (dir ++ ["src"; "app"])) as [e2|[d2|es2]] eqn:E2; cbn;
    rewrite ?E2; cbn;
    destruct (resolve fs (dir ++ ["app"])) as [e3|[d3|es3]] eqn:E3; cbn;
    rewrite ?E3; cbn;
    (split; [lia|repeat constructor; eexists; eauto]).
Qed.

(** ** A start that is not a directory *)

Lemma resolve_below_non_directory fs start c :
  is_dir fs start = false -> exists code, resolve fs (start ++ [c]) = inl code.
Proof.
  unfold is_dir. rewrite resolve_app.
  destruct (resolve fs start) as [e|[d|es]]; try discriminate; cbn; eauto.
Qed.

(** X8. Started on a path that is missing or is a file, the two policies
    fail differently: the recursive search throws from its first
    [readdirSync], so the first command-line tool and the extension end in
    that exception with nothing printed; the shallow lookup finds nothing, so
    the newest tool reports not-found and exits with status 1. *)
Theorem start_not_a_directory (hooks : table) (start : path) (fs : node) :
  is_dir fs start = false ->
  (exists code,
     CliV1.createHooksFolder hooks start fs
     = (Throw (IOError code "scandir" start), fs, [EvReaddir start])
     /\ forall others,
          Extension.createHooksFolder hooks (Some (start :: others)) fs
          = (Throw (IOError code "scandir" start), fs, [EvReaddir start]))
  /\ CliV2.createHooksFolder hooks start fs
     = (Exit 1, fs,
        [EvExists (start ++ ["src"]); EvExists (start ++ ["app"]);
         EvConsoleError
           "No src, src/app, or app folder found in the current directory."]).
Proof.
  intros Hd. split.
  - unfold CliV1.createHooksFolder, Extension.createHooksFolder,
      CliV1.findTargetDirectory, Extension.findHooksDirectory,
      PolicyA.findTargetDirectory.
    cbn [PolicyA.findTargetDirectory_fuel]. unfold bind, readdirSync.
    unfold is_dir in Hd.
    destruct (resolve fs start) as [e|[d|es]]; try discriminate; eauto.
  - destruct (resolve_below_non_directory fs start "src" Hd) as [c1 E1].
    destruct (resolve_below_non_directory fs start "app" Hd) as [c2 E2].
    unfold CliV2.createHooksFolder, CliV2.findTargetDirectory,
      CliV2.existsAndIsDirectory, bind, existsSync, join.
    rewrite E1. cbn. rewrite E2. reflexivity.
Qed.

Lemma start_not_a_directory_witness :
  is_dir projFs ["proj"; "package.json"] = false
  /\ CliV2.createHooksFolder sampleHooks ["proj"; "package.json"] projFs
     = (Exit 1, projFs,
        [EvExists (["proj"; "package.json"] ++ ["src"]);
         EvExists (["proj"; "package.json"] ++ ["app"]);
         EvConsoleError
           "No src, src/app, or app folder found in the current directory."]).
Proof.
  split; [reflexivity|].
  apply (start_not_a_directory sampleHooks ["proj"; "package.json"] projFs).
  reflexivity.
Defined.

(** ** The callers *)

(** X9. The command-line tools exit with status 0 exactly when a target was
    found and every write went through, the run ending with the one success
    line; every other run exits with status 1 and prints no success line. *)
Theorem exit_status_tells_success (v : variant) (hooks : table)
    (start : path) (fs : node) :
  v = CommandLineV1 \/ v = CommandLineV2 ->
  (exitStatus (outcome (entryPoint v hooks start fs)) = 0%Z
   \/ exitStatus (outcome (entryPoint v hooks start fs)) = 1%Z)
  /\ (exitStatus (outcome (entryPoint v hooks start fs)) = 0%Z
      <-> exists target,
            outcome (resolver v start fs) = Normal (Some target)
            /\ filter is_write (trace (entryPoint v hooks start fs))
               = stampWrites fs (target ++ ["hooks"]) hooks
            /\ filter is_message (trace (entryPoint v hooks start fs))
               = [EvConsoleLog ("Hooks folder created successfully in "
                                ++ fsPath (target ++ ["hooks"]))]).
Proof.
  intros Hv.
  destruct (entryPoint_run v hooks start fs) as [r [tr [R [Htr H]]]].
  destruct (filter_reads tr Htr) as [Hw [Hmsg _]].
  destruct r as [[target|]|e|code|]; try contradiction.
  - destruct H as [c [fs' [ts [S E]]]].
    assert (Hd : is_dir fs target = true).
    { destruct (resolver_result _ _ _ _ _ _ R) as [[s [_ [_ [_ Hd]]]] _]. exact Hd. }
    pose proof (stampHooks_run target hooks fs c fs' ts Hd S) as Hs.
    cbv zeta in Hs. destruct Hs as [_ [_ [_ [Hm Hc]]]].
    rewrite E, R. unfold outcome, trace. cbn [fst snd].
    rewrite !filter_app, Hw, Hmsg, Hm. cbn [app].
    destruct c as [hp|ex| |]; try contradiction.
    + destruct Hc as [-> [Hfw _]]. split; [now left|]. split; [|reflexivity].
      intros _. exists target. split; [reflexivity|].
      fold (join target "hooks").
      destruct Hv as [-> | ->]; cbn; rewrite app_nil_r; auto.
    + split; [now right|]. split; [discriminate|].
      intros [target' [_ [_ Hmm]]]. cbn in Hmm. discriminate.
  - rewrite H, R. unfold outcome, trace. cbn [fst snd].
    destruct Hv as [-> | ->]; cbn; (split; [now right|]);
      (split; [discriminate|intros [target' [Hr _]]; discriminate]).
  - rewrite H, R. unfold outcome, trace. cbn [fst snd].
    split; [now right|]. split; [discriminate|].
    intros [target' [Hr _]]. discriminate.
Qed.

(** The first command-line tool on [/mono]. *)
Lemma exit_status_tells_success_witness :
  (CommandLineV1 = CommandLineV1 \/ CommandLineV1 = CommandLineV2)
  /\ exists target,
       outcome (resolver CommandLineV1 ["mono"] monoFs) = Normal (Some target)
       /\ filter is_write (trace (entryPoint CommandLineV1 sampleHooks4 ["mono"] monoFs))
          = stampWrites monoFs (target ++ ["hooks"]) sampleHooks4
       /\ filter is_message (trace (entryPoint CommandLineV1 sampleHooks4 ["mono"] monoFs))
          = [EvConsoleLog ("Hooks folder created successfully in "
                           ++ fsPath (target ++ ["hooks"]))].
Proof.
  split; [now left|].
  destruct (exit_status_tells_success CommandLineV1 sampleHooks4 ["mono"] monoFs
              (or_introl eq_refl)) as [_ [H _]].
  apply H. reflexivity.
Defined.

(** X10. The command registered by the extension never fails towards the
    host: the callback returns normally whatever happens.  The user sees
    exactly one message unless [createHooksFolder] rejected; a rejection (an
    empty folder list, or a failed filesystem call) is silent. *)
Theorem command_callback_is_silent_on_failure (hooks : table)
    (workspaceFolders : option (list path)) (fs : node) :
  match commandCallback hooks workspaceFolders fs with
  | (c, fs', t, rejection) =>
      c = Normal tt
      /\ match rejection with
         | Some e =>
             filter is_message t = []
             /\ outcome (Extension.createHooksFolder hooks workspaceFolders fs)
                = Throw e
         | None => exists m, filter is_message t = [m]
         end
  end.
Proof.
  unfold commandCallback.
  destruct workspaceFolders as [[|start others]|].
  - cbn. auto.
  - destruct (entryPoint_run (EditorExtension others) hooks start fs)
      as [r [tr [R [Htr H]]]].
    destruct (filter_reads tr Htr) as [_ [Hmsg _]].
    change (Extension.createHooksFolder hooks (Some (start :: others)))
      with (entryPoint (EditorExtension others) hooks start).
    destruct r as [[target|]|e|code|]; try contradiction.
    + destruct H as [c [fs' [ts [S E]]]].
      assert (Hd : is_dir fs target = true).
      { destruct (resolver_result _ _ _ _ _ _ R) as [[s [_ [_ [_ Hd]]]] _].
        exact Hd. }
      pose proof (stampHooks_run target hooks fs c fs' ts Hd S) as Hs.
      cbv zeta in Hs. destruct Hs as [_ [_ [_ [Hm Hc]]]].
      rewrite E. destruct c as [hp|ex| |]; try contradiction.
      * split; [reflexivity|]. rewrite !filter_app, Hmsg, Hm. cbn. eauto.
      * split; [reflexivity|]. rewrite !filter_app, Hmsg, Hm. cbn. auto.
    + rewrite H. cbn. split; [reflexivity|].
      rewrite filter_app, Hmsg. cbn. eauto.
    + rewrite H. cbn. auto.
  - cbn. split; [reflexivity|]. eauto.
Qed.

(** ** [useThrottle] *)

Lemma throttle_calls_spaced {Args} (cs : list (UseThrottle.call Args)) :
  forall last,
    UseThrottle.spaced last (snd (UseThrottle.calls last cs))
    /\ fst (UseThrottle.calls last cs)
       = UseThrottle.lastTime last (snd (UseThrottle.calls last cs))
    /\ incl (snd (UseThrottle.calls last cs)) cs.
Proof.
  induction cs as [|c rest IH]; intros last.
  - cbn. repeat split. apply incl_refl.
  - cbn [UseThrottle.calls]. unfold UseThrottle.throttledFunction.
    destruct (inject_Z (UseThrottle.now c - last) ?= UseThrottle.delay c)%Q
      eqn:E.
    + destruct (IH last) as [H1 [H2 H3]]. split; [assumption|].
      split; [assumption|]. intros x Hx. right. now apply H3.
    + destruct (IH last) as [H1 [H2 H3]]. split; [assumption|].
      split; [assumption|]. intros x Hx. right. now apply H3.
    + destruct (IH (UseThrottle.now c)) as [H1 [H2 H3]].
      destruct (UseThrottle.calls (UseThrottle.now c) rest) as [final invoked].
      cbn [fst snd] in *. split; [|split].
      * cbn. split; [now apply Qgt_alt|assumption].
      * exact H2.
      * intros x [->|Hx]; [now left|right; now apply H3].
Qed.

Lemma lastTime_cons {Args} (c : UseThrottle.call Args) l last :
  UseThrottle.lastTime last (c :: l)
  = UseThrottle.lastTime (UseThrottle.now c) l.
Proof. reflexivity. Qed.

(** [k] calls, each more than [d] after the one before, span more than
    [k * d]. *)
Lemma throttle_spaced_span {Args} (l : list (UseThrottle.call Args)) (d : Q) :
  Forall (fun c => (UseThrottle.delay c == d)%Q) l ->
  forall last,
    UseThrottle.spaced last l ->
    (inject_Z (Z.of_nat (List.length l)) * d
     <= inject_Z (UseThrottle.lastTime last l - last))%Q
    /\ (l <> [] ->
        (inject_Z (Z.of_nat (List.length l)) * d
         < inject_Z (UseThrottle.lastTime last l - last))%Q).
Proof.
  intros Hall. induction Hall as [|c l Hc Hl IH]; intros last Hs.
  - cbn [List.length UseThrottle.lastTime fold_left]. split; [|congruence].
    rewrite Z.sub_diag. change (inject_Z (Z.of_nat 0)) with 0%Q.
    change (inject_Z 0) with 0%Q. lra.
  - destruct Hs as [H1 H2]. destruct (IH _ H2) as [IH1 _].
    rewrite lastTime_cons. rewrite Hc in H1.
    assert (E : (inject_Z (UseThrottle.lastTime (UseThrottle.now c) l - last)
                 == inject_Z (UseThrottle.lastTime (UseThrottle.now c) l
                              - UseThrottle.now c)
                    + inject_Z (UseThrottle.now c - last))%Q).
    { rewrite <- inject_Z_plus. apply inject_Z_injective. lia. }
    assert (K : (inject_Z (Z.of_nat (List.length (c :: l)))
                 == inject_Z (Z.of_nat (List.length l)) + 1)%Q).
    { cbn [List.length]. rewrite Nat2Z.inj_succ. unfold Z.succ.
      rewrite inject_Z_plus. reflexivity. }
    rewrite E, K.
    assert (S1 : ((inject_Z (Z.of_nat (List.length l)) + 1) * d
                  == inject_Z (Z.of_nat (List.length l)) * d + d)%Q) by ring.
    rewrite S1. split; [|intros _]; lra.
Qed.

(** The same for a delay of whole milliseconds. *)
Lemma throttle_spaced_span_whole {Args} (l : list (UseThrottle.call Args))
    (z : Z) :
  Forall (fun c => (UseThrottle.delay c == inject_Z z)%Q) l ->
  forall last,
    UseThrottle.spaced last l ->
    (Z.of_nat (List.length l) * (z + 1)
     <= UseThrottle.lastTime last l - last)%Z.
Proof.
  intros Hall. induction Hall as [|c l Hc Hl IH]; intros last Hs.
  - cbn. lia.
  - destruct Hs as [H1 H2]. specialize (IH _ H2).
    rewrite lastTime_cons. rewrite Hc in H1. rewrite <- Zlt_Qlt in H1.
    cbn [List.length]. lia.
Qed.

(** X11. [useThrottle] spaces the calls that reach the callback: on one
    mounted component, each call that goes through comes more than its delay
    after the previous one that went through (after time 0 for the first),
    whatever was dropped in between; and [lastCall.current] is always the
    time of the last call that went through, so dropped calls postpone
    nothing. *)
Theorem throttle_spaces_calls {Args} (cs : list (UseThrottle.call Args)) :
  UseThrottle.spaced 0 (snd (UseThrottle.mounted cs))
  /\ fst (UseThrottle.mounted cs)
     = UseThrottle.lastTime 0 (snd (UseThrottle.mounted cs))
  /\ incl (snd (UseThrottle.mounted cs)) cs.
Proof. apply throttle_calls_spaced. Qed.

(** X12. The rate [useThrottle] allows, for any finite delay: with one
    delay [d] throughout, from the first call that went through to the last,
    the [k] further calls that went through take at least [k * d]
    milliseconds, more than that as soon as there is one; and when [d] is a
    whole number of milliseconds they take at least [k * (d + 1)]. *)
Theorem throttle_rate {Args} (cs : list (UseThrottle.call Args)) (d : Q)
    (first : UseThrottle.call Args) (rest : list (UseThrottle.call Args)) :
  Forall (fun c => (UseThrottle.delay c == d)%Q) cs ->
  snd (UseThrottle.mounted cs) = first :: rest ->
  (inject_Z (Z.of_nat (List.length rest)) * d
   <= inject_Z (UseThrottle.lastTime (UseThrottle.now first) rest
                - UseThrottle.now first))%Q
  /\ (rest <> [] ->
      (inject_Z (Z.of_nat (List.length rest)) * d
       < inject_Z (UseThrottle.lastTime (UseThrottle.now first) rest
                   - UseThrottle.now first))%Q)
  /\ (forall z : Z,
        (d == inject_Z z)%Q ->
        (Z.of_nat (List.length rest) * (z + 1)
         <= UseThrottle.lastTime (UseThrottle.now first) rest
            - UseThrottle.now first)%Z).
Proof.
  intros Hall E.
  destruct (throttle_calls_spaced cs 0%Z) as [Hs [_ Hincl]].
  unfold UseThrottle.mounted in E. rewrite E in Hs, Hincl.
  destruct Hs as [_ Hs].
  assert (Hrest : Forall (fun c => (UseThrottle.delay c == d)%Q) rest).
  { rewrite Forall_forall in *. intros c Hc. apply Hall, Hincl. now right. }
  destruct (throttle_spaced_span rest d Hrest _ Hs) as [H1 H2].
  split; [exact H1|]. split; [exact H2|].
  intros z Hz. apply throttle_spaced_span_whole; [|exact Hs].
  rewrite Forall_forall in *. intros c Hc. rewrite (Hrest c Hc). exact Hz.
Qed.

(** Calls at 1000, 1010, 1017, 1030 and 1034 ms with a delay of 16.5 ms:
    those at 1000, 1017 and 1034 go through, 34 ms for two further calls. *)
Lemma throttle_rate_witness :
  Forall (fun c => (UseThrottle.delay c == 33 # 2)%Q)
    (map UseThrottle.frameCall [1000; 1010; 1017; 1030; 1034]%Z)
  /\ snd (UseThrottle.mounted
            (map UseThrottle.frameCall [1000; 1010; 1017; 1030; 1034]%Z))
     = map UseThrottle.frameCall [1000; 1017; 1034]%Z
  /\ (inject_Z (Z.of_nat 2) * (33 # 2) < inject_Z (1034 - 1000))%Q.
Proof.
  assert (Hall : Forall (fun c => (UseThrottle.delay c == 33 # 2)%Q)
                   (map UseThrottle.frameCall [1000; 1010; 1017; 1030; 1034]%Z))
    by (repeat constructor).
  split; [exact Hall|]. split; [reflexivity|].
  destruct (throttle_rate
              (map UseThrottle.frameCall [1000; 1010; 1017; 1030; 1034]%Z)
              (33 # 2)%Q (UseThrottle.frameCall 1000%Z)
              (map UseThrottle.frameCall [1017; 1034]%Z) Hall eq_refl)
    as [_ [H _]].
  apply H. discriminate.
Defined.

(** With a delay of 100 ms, the call exactly 100 ms after the last one that
    went through is dropped, the one 101 ms after goes through. *)
Example throttle_whole_delay :
  snd (UseThrottle.mounted
         (map UseThrottle.sampleCall [1000; 1040; 1100; 1101; 1250]%Z))
  = map UseThrottle.sampleCall [1000; 1101; 1250]%Z.
Proof. reflexivity. Qed.

(** ** [useFetch] *)

Lemma fetchData_loading {Data} (r : UseFetch.fetched Data) s :
  UseFetch.loading (UseFetch.fetchData r s) = false.
Proof. reflexivity. Qed.

Lemma fetchData_error {Data} (r : UseFetch.fetched Data) s :
  (UseFetch.fails r = true -> UseFetch.error (UseFetch.fetchData r s) <> None)
  /\ (UseFetch.fails r = false ->
      UseFetch.error (UseFetch.fetchData r s) = UseFetch.error s)
  /\ (UseFetch.fails r = true ->
      UseFetch.data (UseFetch.fetchData r s) = UseFetch.data s).
Proof.
  destruct r as [[m|]|[|] [result|[m|]]]; cbn; repeat split;
    intros; try discriminate; reflexivity.
Qed.

Lemma fold_fetchData_sticky {Data} (rs : list (UseFetch.fetched Data)) :
  forall s,
    (UseFetch.error s <> None \/ existsb UseFetch.fails rs = true ->
     UseFetch.error (fold_left (fun s r => UseFetch.fetchData r s) rs s) <> None)
    /\ (rs <> [] ->
        UseFetch.loading (fold_left (fun s r => UseFetch.fetchData r s) rs s)
        = false)
    /\ (forallb UseFetch.fails rs = true ->
        UseFetch.data (fold_left (fun s r => UseFetch.fetchData r s) rs s)
        = UseFetch.data s).
Proof.
  induction rs as [|r rs IH]; intros s.
  - cbn. repeat split; try tauto. intros [H|H]; [assumption|discriminate].
  - cbn [fold_left existsb forallb].
    destruct (IH (UseFetch.fetchData r s)) as [H1 [H2 H3]].
    destruct (fetchData_error r s) as [E1 [E2 E3]].
    split; [|split].
    + intros H. apply H1. destruct (UseFetch.fails r) eqn:Ef.
      * left. now apply E1.
      * rewrite E2 by reflexivity. destruct H as [H|H]; [now left|now right].
    + intros _. destruct rs as [|r' rs']; [apply fetchData_loading|].
      apply H2. discriminate.
    + rewrite andb_true_iff. intros [Hf Hr]. rewrite H3 by assumption.
      now apply E3.
Qed.

(** X13. [useFetch] never resets what it shows.  On a mounted component,
    once any request has failed, [error] stays set through every later
    request, successful or not; [loading] is false from the first request
    that finishes and never true again, whatever [url] changes to; and as
    long as every request fails, [data] keeps its initial [null]. *)
Theorem useFetch_never_resets {Data} (null : Data)
    (rs : list (UseFetch.fetched Data)) :
  (existsb UseFetch.fails rs = true ->
   UseFetch.error (UseFetch.finished null rs) <> None)
  /\ (rs <> [] -> UseFetch.loading (UseFetch.finished null rs) = false)
  /\ (forallb UseFetch.fails rs = true ->
      UseFetch.data (UseFetch.finished null rs) = null).
Proof.
  destruct (fold_fetchData_sticky rs (UseFetch.initial null)) as [H1 [H2 H3]].
  split; [|split].
  - intros H. apply H1. now right.
  - exact H2.
  - exact H3.
Qed.

(** A failed request followed by a successful one: the data of the second
    is shown beside the error of the first. *)
Lemma useFetch_never_resets_witness :
  existsb UseFetch.fails
    [UseFetch.Responds false (UseFetch.Json 0); UseFetch.Responds true (UseFetch.Json 7)]
  = true
  /\ UseFetch.finished 0
       [UseFetch.Responds false (UseFetch.Json 0); UseFetch.Responds true (UseFetch.Json 7)]
     = {| UseFetch.data := 7; UseFetch.loading := false;
          UseFetch.error := Some "Error fetching data" |}
  /\ UseFetch.error
       (UseFetch.finished 0
          [UseFetch.Responds false (UseFetch.Json 0);
           UseFetch.Responds true (UseFetch.Json 7)]) <> None.
Proof.
  split; [reflexivity|]. split; [reflexivity|].
  apply (useFetch_never_resets 0
           [UseFetch.Responds false (UseFetch.Json 0);
            UseFetch.Responds true (UseFetch.Json 7)]).
  reflexivity.
Defined.

(** ** [useLocalStorage] *)

(** X14. A stored value is read back: when [setValue] is given a value that
    [JSON] writes as a non-empty string and reads back, and the storage takes
    the item, the state is set to that value, nothing is printed, a later
    mount under the same key starts from that value, and the items under
    other keys are untouched. *)
Theorem localStorage_round_trip {T} (parse : string -> option T)
    (stringify : T -> option string)
    (accepts : UseLocalStorage.Storage -> string -> string -> bool)
    (key : string) (storedValue initialValue v : T) (item : string)
    (s : UseLocalStorage.Storage) :
  stringify v = Some item ->
  item <> "" ->
  parse item = Some v ->
  accepts s key item = true ->
  exists s',
    UseLocalStorage.setValue stringify accepts key storedValue (inl v) s
    = (v, s', [])
    /\ UseLocalStorage.initialState parse key initialValue s' = (v, [])
    /\ forall k, k <> key -> s' k = s k.
Proof.
  intros Hs Hne Hp Ha. unfold UseLocalStorage.setValue, UseLocalStorage.setItem.
  rewrite Hs, Ha. eexists. split; [reflexivity|]. split.
  - unfold UseLocalStorage.initialState. cbn. rewrite String.eqb_refl.
    apply String.eqb_neq in Hne. now rewrite Hne, Hp.
  - intros k Hk. apply String.eqb_neq in Hk. now rewrite Hk.
Qed.

Lemma localStorage_round_trip_witness :
  UseLocalStorage.stringifyBool true = Some "true"
  /\ "true" <> ""
  /\ UseLocalStorage.parseBool "true" = Some true
  /\ UseLocalStorage.smallStorage UseLocalStorage.emptyStorage "dark" "true" = true
  /\ exists s',
       UseLocalStorage.setValue UseLocalStorage.stringifyBool
         UseLocalStorage.smallStorage "dark" false (inl true)
         UseLocalStorage.emptyStorage
       = (true, s', [])
       /\ UseLocalStorage.initialState UseLocalStorage.parseBool "dark" false s'
          = (true, [])
       /\ forall k, k <> "dark" -> s' k = UseLocalStorage.emptyStorage k.
Proof.
  split; [reflexivity|]. split; [discriminate|]. split; [reflexivity|].
  split; [reflexivity|].
  apply (localStorage_round_trip UseLocalStorage.parseBool
           UseLocalStorage.stringifyBool UseLocalStorage.smallStorage
           "dark" false false true "true" UseLocalStorage.emptyStorage);
    try reflexivity. discriminate.
Defined.

(** X15. A failed write is lost at the next mount: [setValue] sets the state
    before it writes, so when [JSON.stringify] throws or the storage refuses
    the item, the component shows the new value, one error is printed, the
    storage is exactly as before, and the next mount starts from what it
    would have started from without the call. *)
Theorem localStorage_failed_write {T} (parse : string -> option T)
    (stringify : T -> option string)
    (accepts : UseLocalStorage.Storage -> string -> string -> bool)
    (key : string) (storedValue initialValue v : T)
    (s : UseLocalStorage.Storage) :
  (stringify v = None
   \/ exists item, stringify v = Some item /\ accepts s key item = false) ->
  UseLocalStorage.setValue stringify accepts key storedValue (inl v) s
  = (v, s, ["Error setting localStorage:"])
  /\ UseLocalStorage.initialState parse key initialValue
       (snd (fst (UseLocalStorage.setValue stringify accepts key storedValue
                    (inl v) s)))
     = UseLocalStorage.initialState parse key initialValue s.
Proof.
  intros H. assert (E : UseLocalStorage.setValue stringify accepts key
                          storedValue (inl v) s
                        = (v, s, ["Error setting localStorage:"])).
  { unfold UseLocalStorage.setValue, UseLocalStorage.setItem.
    destruct H as [->|[item [-> ->]]]; reflexivity. }
  rewrite E. split; reflexivity.
Qed.

(** An item of more than four characters is refused by the small storage. *)
Lemma localStorage_failed_write_witness :
  (UseLocalStorage.stringifyBool false = None
   \/ exists item,
        UseLocalStorage.stringifyBool false = Some item
        /\ UseLocalStorage.smallStorage UseLocalStorage.emptyStorage "dark" item
           = false)
  /\ UseLocalStorage.setValue UseLocalStorage.stringifyBool
       UseLocalStorage.smallStorage "dark" true (inl false)
       UseLocalStorage.emptyStorage
     = (false, UseLocalStorage.emptyStorage, ["Error setting localStorage:"]).
Proof.
  assert (H : UseLocalStorage.stringifyBool false = None
              \/ exists item,
                   UseLocalStorage.stringifyBool false = Some item
                   /\ UseLocalStorage.smallStorage UseLocalStorage.emptyStorage
                        "dark" item = false).
  { right. exists "false". split; reflexivity. }
  split; [exact H|].
  apply (localStorage_failed_write UseLocalStorage.parseBool
           UseLocalStorage.stringifyBool UseLocalStorage.smallStorage
           "dark" true true false UseLocalStorage.emptyStorage H).
Defined.


(** ** [useDebounce] *)

Section DebounceFacts.
Variable T : Type.
Variable same : forall x y : T, {x = y} + {x <> y}.

Lemma clearTimeout_one (id : nat) (v : T) :
  UseDebounce.clearTimeout T (Some id) [(id, v)] = [].
Proof. cbn. now rewrite Nat.eqb_refl. Qed.

Lemma one_timer_cleanup (s : UseDebounce.state T) :
  UseDebounce.one_timer s ->
  UseDebounce.timers (UseDebounce.cleanup T s) = []
  /\ UseDebounce.timerRef (UseDebounce.cleanup T s) = None.
Proof.
  intros [id [Hr [_ [Ht|Ht]]]]; cbn; rewrite Hr, Ht; split; auto.
  apply clearTimeout_one.
Qed.

Lemma one_timer_effect (p : UseDebounce.props T) (s : UseDebounce.state T) :
  UseDebounce.timers s = [] -> UseDebounce.timerRef s = None ->
  UseDebounce.one_timer (UseDebounce.effect T p s)
  /\ UseDebounce.timers (UseDebounce.effect T p s)
     = [(UseDebounce.nextId s, UseDebounce.value p)]
  /\ UseDebounce.debouncedValue (UseDebounce.effect T p s)
     = (if UseDebounce.immediate p then UseDebounce.value p
        else UseDebounce.debouncedValue s).
Proof.
  intros Ht Hr. unfold UseDebounce.effect. rewrite Ht, Hr. cbn.
  rewrite andb_true_r. split; [|split; reflexivity].
  exists (UseDebounce.nextId s). cbn. repeat split; auto.
Qed.

Lemma one_timer_after (s : UseDebounce.state T) (e : UseDebounce.step T) :
  UseDebounce.one_timer s ->
  UseDebounce.one_timer (UseDebounce.after T same s e).
Proof.
  intros H. destruct e as [p|id]; cbn.
  - unfold UseDebounce.render.
    destruct (UseDebounce.same_props T same p (UseDebounce.current s)); [assumption|].
    destruct (one_timer_cleanup s H) as [Ht Hr].
    now apply one_timer_effect.
  - unfold UseDebounce.fire. destruct H as [i [Hr [Hi [Ht|Ht]]]].
    + rewrite Ht. cbn. exists i. cbn. auto.
    + rewrite Ht. cbn [find fst]. destruct (Nat.eqb i id) eqn:E.
      * exists i. cbn. rewrite E. cbn. auto.
      * exists i. rewrite Ht. auto.
Qed.

Lemma one_timer_run (p : UseDebounce.props T) (es : list (UseDebounce.step T)) :
  UseDebounce.one_timer (UseDebounce.run T same p es).
Proof.
  unfold UseDebounce.run.
  assert (H0 : UseDebounce.one_timer (UseDebounce.mount T p)).
  { apply one_timer_effect; reflexivity. }
  revert H0. generalize (UseDebounce.mount T p). 
  induction es as [|e es IH]; intros s Hs; [exact Hs|].
  cbn. apply IH. now apply one_timer_after.
Qed.

(** What every reachable state satisfies, given the value of the last
    render. *)
Lemma debounce_invariant (es : list (UseDebounce.step T)) :
  forall (p : UseDebounce.props T) (s : UseDebounce.state T),
    UseDebounce.one_timer s ->
    UseDebounce.value (UseDebounce.current s) = UseDebounce.value p ->
    (UseDebounce.debouncedValue s = UseDebounce.value p
     \/ exists id, UseDebounce.timers s = [(id, UseDebounce.value p)]) ->
    let s' := fold_left (UseDebounce.after T same) es s in
    UseDebounce.one_timer s'
    /\ UseDebounce.value (UseDebounce.current s')
       = UseDebounce.value (UseDebounce.latest p es)
    /\ (UseDebounce.debouncedValue s'
        = UseDebounce.value (UseDebounce.latest p es)
        \/ exists id,
             UseDebounce.timers s'
             = [(id, UseDebounce.value (UseDebounce.latest p es))])
    /\ (UseDebounce.immediate p = true ->
        UseDebounce.all_immediate es = true ->
        UseDebounce.debouncedValue s = UseDebounce.value p ->
        UseDebounce.debouncedValue s'
        = UseDebounce.value (UseDebounce.latest p es)).
Proof.
  induction es as [|e es IH]; intros p s H1 Hc Hk; cbn zeta.
  - cbn. auto.
  - cbn [fold_left]. destruct e as [q|id].
    + cbn [UseDebounce.latest UseDebounce.all_immediate forallb].
      assert (H1' := one_timer_after s (UseDebounce.Render q) H1).
      cbn [UseDebounce.after] in *. unfold UseDebounce.render in *.
      destruct (UseDebounce.same_props T same q (UseDebounce.current s)) eqn:Es.
      * assert (Hv : UseDebounce.value q = UseDebounce.value p).
        { unfold UseDebounce.same_props in Es.
          destruct (same (UseDebounce.value q)
                      (UseDebounce.value (UseDebounce.current s)));
            [congruence|discriminate]. }
        assert (Hi : UseDebounce.immediate q
                     = UseDebounce.immediate (UseDebounce.current s)).
        { unfold UseDebounce.same_props in Es.
          apply andb_true_iff in Es. destruct Es as [_ Es].
          now apply Bool.eqb_prop in Es. }
        destruct (IH q s H1) as [I1 [I2 [I3 I4]]].
        -- congruence.
        -- rewrite Hv. exact Hk.
        -- repeat split; auto. intros Hp Ha Hd.
           apply andb_true_iff in Ha. destruct Ha as [Hq Ha].
           apply I4; auto. congruence.
      * destruct (one_timer_cleanup s H1) as [Ht Hr].
        destruct (one_timer_effect q (UseDebounce.cleanup T s) Ht Hr)
          as [_ [Et Ed]].
        destruct (IH q (UseDebounce.effect T q (UseDebounce.cleanup T s)) H1')
          as [I1 [I2 [I3 I4]]].
        -- reflexivity.
        -- right. eexists. exact Et.
        -- repeat split; auto. intros Hp Ha Hd.
           apply andb_true_iff in Ha. destruct Ha as [Hq Ha].
           apply I4; auto. rewrite Ed, Hq. reflexivity.
    + cbn [UseDebounce.latest UseDebounce.all_immediate forallb].
      assert (H1' := one_timer_after s (UseDebounce.Fire id) H1).
      cbn [UseDebounce.after] in *.
      assert (Hf : UseDebounce.value (UseDebounce.current (UseDebounce.fire T id s))
                   = UseDebounce.value p
                   /\ (UseDebounce.debouncedValue (UseDebounce.fire T id s)
                       = UseDebounce.value p
                       \/ exists i, UseDebounce.timers (UseDebounce.fire T id s)
                                    = [(i, UseDebounce.value p)])
                   /\ (UseDebounce.debouncedValue s = UseDebounce.value p ->
                       UseDebounce.debouncedValue (UseDebounce.fire T id s)
                       = UseDebounce.value p)).
      { unfold UseDebounce.fire. destruct H1 as [i [Hr [Hi [Ht|Ht]]]].
        - rewrite Ht. cbn. split; [assumption|]. split; [|auto].
          destruct Hk as [Hk|[j Hj]]; [now left|congruence].
        - rewrite Ht. cbn [find fst]. destruct (Nat.eqb i id).
          + cbn. rewrite Hc. auto.
          + split; [assumption|]. split; [|auto]. right. exists i.
            rewrite Ht. now rewrite Hc. }
      destruct Hf as [F1 [F2 F3]].
      destruct (IH p (UseDebounce.fire T id s) H1' F1 F2) as [I1 [I2 [I3 I4]]].
      repeat split; auto.
Qed.

End DebounceFacts.




(** The same changes in trailing mode leave the first value in place until
    the timeout fires. *)
Example debounce_trailing_waits :
  UseDebounce.debouncedValue
    (UseDebounce.run nat Nat.eq_dec (UseDebounce.trailing 1)
       [UseDebounce.Render (UseDebounce.trailing 2);
        UseDebounce.Render (UseDebounce.trailing 3)]) = 1
  /\ UseDebounce.debouncedValue
       (UseDebounce.run nat Nat.eq_dec (UseDebounce.trailing 1)
          [UseDebounce.Render (UseDebounce.trailing 2);
           UseDebounce.Render (UseDebounce.trailing 3);
           UseDebounce.Fire 2]) = 3.
Proof. split; reflexivity. Qed.
